(** * populate.py: contact-list generation, resume and merge

    A shallow embedding of [populate.py] and the properties of its
    normaliser, model gateway, accumulation loop, persistence layer and
    orchestrator.

    Conventions of the embedding.
    - A Python [str] is a [string]; a character stands for the code point
      of the same number (below 256).  [strip] and [lower] follow Python on
      all of these; [upper] and [title] are embedded on ASCII letters,
      which is what the tables of the program contain.
    - A value decoded from JSON (or handed around untyped) is a [value].
      A Python [dict] is an association list in insertion order, looked up
      by its first matching key.
    - A call that can raise returns a [result]; code that also prints,
      sleeps, calls the service or touches the disk runs in the monad [M]
      over a [world].
    - The ids and paths of a run are taken to be texts that the standard
      output encodes, so a line is printed without an error; the exception
      is the one line that holds a character outside ASCII whatever the
      data: the line that follows the writing of a file holds U+2192, and
      a standard output that cannot encode it raises.
    - The rows a run generates come from the service and may hold a text
      that cannot be encoded (a lone surrogate): the writing of such a row
      raises, after the rows before it.  The rows the merge writes were
      decoded from files, so they are written without such an error. *)

From stdpp Require Import gmap strings list.
From Stdlib Require Import ZArith Floats Ascii.

Set Warnings "-register-all,-clear-no-such-hyp".

Open Scope string_scope.
Open Scope list_scope.
Open Scope Z_scope.

(** ** Exceptions and fallible calls

    [exn] stands for the subclasses of [Exception], which is what
    [except Exception] catches; [sys.exit] is an early return of [main]. *)

Inductive exn :=
| AttributeError
| TypeError
| RuntimeError (msg : string)
| JSONDecodeError
| ValueError (msg : string)
| ServiceError (msg : string)
| OSError (msg : string).

Inductive result (A : Type) :=
| Ok (a : A)
| Raise (e : exn).
Arguments Ok {A} a.
Arguments Raise {A} e.

#[global] Instance result_ret : MRet result := λ A a, Ok a.
#[global] Instance result_bind : MBind result := λ A B f m,
  match m with Ok a => f a | Raise e => Raise e end.

(** ** Python strings *)

Module Str.

Definition code (c : ascii) : N := Ascii.N_of_ascii c.

Definition between (lo hi : N) (c : ascii) : bool :=
  ((lo <=? code c) && (code c <=? hi))%N.

(** [str.isspace] on one character. *)
Definition is_space (c : ascii) : bool :=
  between 9 13 c || between 28 32 c || (code c =? 133)%N || (code c =? 160)%N.

Definition is_upper_ascii (c : ascii) : bool := between 65 90 c.
Definition is_lower_ascii (c : ascii) : bool := between 97 122 c.
Definition is_digit (c : ascii) : bool := between 48 57 c.
Definition is_alpha_ascii (c : ascii) : bool := is_upper_ascii c || is_lower_ascii c.

Definition lower_char (c : ascii) : ascii :=
  if is_upper_ascii c || (between 192 222 c && negb (code c =? 215)%N)
  then Ascii.ascii_of_N (code c + 32) else c.

Definition upper_char (c : ascii) : ascii :=
  if is_lower_ascii c then Ascii.ascii_of_N (code c - 32) else c.

Fixpoint map (f : ascii → ascii) (s : string) : string :=
  match s with
  | EmptyString => EmptyString
  | String c s' => String (f c) (map f s')
  end.

Definition lower : string → string := map lower_char.
Definition upper : string → string := map upper_char.

Fixpoint lstrip (s : string) : string :=
  match s with
  | EmptyString => EmptyString
  | String c s' => if is_space c then lstrip s' else s
  end.

Fixpoint rstrip (s : string) : string :=
  match s with
  | EmptyString => EmptyString
  | String c s' =>
      match rstrip s' with
      | EmptyString => if is_space c then EmptyString else String c EmptyString
      | r => String c r
      end
  end.

Definition strip (s : string) : string := rstrip (lstrip s).

Definition is_empty (s : string) : bool :=
  match s with EmptyString => true | _ => false end.

(** [s[:n]] and [s[n:]] for a natural [n]. *)
Fixpoint take (n : nat) (s : string) : string :=
  match n, s with
  | S n', String c s' => String c (take n' s')
  | _, _ => EmptyString
  end.

Fixpoint drop (n : nat) (s : string) : string :=
  match n, s with
  | S n', String _ s' => drop n' s'
  | _, _ => s
  end.

Definition endswith (s suffix : string) : bool :=
  (String.length suffix <=? String.length s)%nat
  && String.eqb (drop (String.length s - String.length suffix) s) suffix.

(** [s.rfind(sub)]: the highest index at which [sub] starts, or -1. *)
Fixpoint rfind_from (sub s : string) (i last : Z) : Z :=
  let last' := if String.prefix sub s then i else last in
  match s with
  | EmptyString => last'
  | String _ s' => rfind_from sub s' (i + 1) last'
  end.

Definition rfind (sub s : string) : Z := rfind_from sub s 0 (-1).

(** [s.rfind(sub, 0, stop)] for [0 <= stop]: the search is confined to
    [s[0:stop]]. *)
Definition rfind_upto (sub s : string) (stop : Z) : Z :=
  rfind sub (take (Z.to_nat stop) s).

(** [c in s] for a one-character [c]. *)
Fixpoint contains_char (c : ascii) (s : string) : bool :=
  match s with
  | EmptyString => false
  | String d s' => Ascii.eqb c d || contains_char c s'
  end.

(** [sub in s]. *)
Fixpoint contains (sub s : string) : bool :=
  String.prefix sub s ||
  match s with
  | EmptyString => false
  | String _ s' => contains sub s'
  end.

(** [s.split(sep)] for a one-character separator. *)
Fixpoint split (sep : ascii) (s : string) : list string :=
  match s with
  | EmptyString => [EmptyString]
  | String c s' =>
      if Ascii.eqb c sep then EmptyString :: split sep s'
      else match split sep s' with
           | h :: t => String c h :: t
           | [] => [String c EmptyString]
           end
  end.

(** [sep.join(parts)]. *)
Definition join (sep : string) (parts : list string) : string :=
  String.concat sep parts.

(** [s.replace(old, new)] for one-character [old] and [new]. *)
Definition replace_char (old new : ascii) : string → string :=
  map (λ c, if Ascii.eqb c old then new else c).

(** [s.title()]. *)
Fixpoint title_from (prev_cased : bool) (s : string) : string :=
  match s with
  | EmptyString => EmptyString
  | String c s' =>
      if is_alpha_ascii c
      then String (if prev_cased then lower_char c else upper_char c)
                  (title_from true s')
      else String c (title_from false s')
  end.

Definition title : string → string := title_from false.

End Str.

(** ** Untyped values and dictionaries *)

Inductive value :=
| VNone
| VBool (b : bool)
| VInt (z : Z)
| VFloat (f : float)
| VStr (s : string)
| VList (l : list value)
| VDict (d : list (string * value)).

Abbreviation dict := (list (string * value)).

(** Python truth value. *)
Definition truthy (v : value) : bool :=
  match v with
  | VNone => false
  | VBool b => b
  | VInt z => negb (z =? 0)
  | VFloat f => negb (PrimFloat.eqb f 0%float)
  | VStr s => negb (Str.is_empty s)
  | VList l => match l with [] => false | _ => true end
  | VDict d => match d with [] => false | _ => true end
  end.

(** [a or b]. *)
Definition py_or (a b : value) : value := if truthy a then a else b.

(** [d.get(k, default)] and [d.get(k)]. *)
Fixpoint get_default (k : string) (default : value) (d : dict) : value :=
  match d with
  | [] => default
  | (k', v) :: d' => if String.eqb k k' then v else get_default k default d'
  end.

Definition get (k : string) (d : dict) : value := get_default k VNone d.

(** [k in d]. *)
Definition has_key (k : string) (d : dict) : bool :=
  existsb (λ kv, String.eqb k kv.1) d.

(** The receiver of a [str] method: anything else has no such attribute. *)
Definition str_receiver (v : value) : result string :=
  match v with
  | VStr s => Ok s
  | _ => Raise AttributeError
  end.

(** The receiver of [.get]: only a dict has it. *)
Definition dict_receiver (v : value) : result dict :=
  match v with
  | VDict d => Ok d
  | _ => Raise AttributeError
  end.

(** [l[:n]] for a Python integer [n]. *)
Definition slice_to {A} (n : Z) (l : list A) : list A :=
  if 0 <=? n then take (Z.to_nat n) l
  else take (length l - Z.to_nat (- n)) l.

(** ** Static tables *)

Definition PARTNER_TYPES : list string :=
  ["influencer"; "podcaster"; "journalist"; "activist"; "ngo"; "other"].

Definition DEFAULT_CITIES : list string :=
  [ "new_york_usa"; "los_angeles_usa"; "mexico_city_mexico"; "sao_paulo_brazil";
    "buenos_aires_argentina";
    "london_england"; "paris_france"; "berlin_germany"; "madrid_spain"; "rome_italy";
    "moscow_russia"; "istanbul_turkey"; "cairo_egypt"; "johannesburg_south_africa";
    "nairobi_kenya";
    "lagos_nigeria"; "kinshasa_democratic_republic_of_the_congo";
    "dubai_united_arab_emirates";
    "mumbai_india"; "delhi_india"; "bangalore_india"; "jakarta_indonesia";
    "bangkok_thailand";
    "manila_philippines"; "tokyo_japan"; "seoul_south_korea"; "beijing_china";
    "shanghai_china";
    "hong_kong_china"; "sydney_australia"; "melbourne_australia"; "toronto_canada";
    "vancouver_canada";
    "chicago_usa"; "san_francisco_usa"; "lima_peru"; "bogota_colombia";
    "santiago_chile";
    "tehran_iran"; "karachi_pakistan" ].

Definition ISO3_items : list (string * string) :=
  [ ("usa","USA"); ("canada","CAN"); ("mexico","MEX"); ("brazil","BRA");
    ("argentina","ARG"); ("peru","PER"); ("colombia","COL"); ("chile","CHL");
    ("england","GBR"); ("france","FRA"); ("germany","DEU"); ("spain","ESP");
    ("italy","ITA"); ("russia","RUS"); ("turkey","TUR");
    ("egypt","EGY"); ("south_africa","ZAF"); ("kenya","KEN"); ("nigeria","NGA");
    ("democratic_republic_of_the_congo","COD");
    ("united_arab_emirates","ARE"); ("iran","IRN"); ("pakistan","PAK");
    ("india","IND"); ("indonesia","IDN"); ("thailand","THA");
    ("philippines","PHL"); ("japan","JPN"); ("south_korea","KOR");
    ("china","CHN"); ("australia","AUS") ].

Definition ISO3 : gmap string string := list_to_map ISO3_items.

Definition LANG_MAP : gmap string string :=
  list_to_map
    [ ("en","en"); ("es","es"); ("pt","pt"); ("fr","fr"); ("de","de"); ("it","it");
      ("ru","ru"); ("tr","tr"); ("ar","ar"); ("sw","sw");
      ("hi","hi"); ("id","id"); ("th","th"); ("ja","ja"); ("ko","ko"); ("zh","zh");
      ("ph","tl"); ("fa","fa"); ("ur","ur"); ("tl","tl") ].

Definition CSV_HEADER : list string :=
  ["name"; "email"; "country"; "language"; "city"; "instagram"; "phone";
   "organization"; "type"; "notes"].

(** ** Normaliser *)

Definition allowed_in_path (c : ascii) : bool :=
  Str.is_alpha_ascii c || Str.is_digit c
  || Ascii.eqb c "." || Ascii.eqb c "_" || Ascii.eqb c "-".

(** [re.sub(r"[^a-zA-Z0-9._-]+", "_", ...)]: every maximal run of other
    characters becomes one underscore. *)
Fixpoint sub_runs (in_run : bool) (s : string) : string :=
  match s with
  | EmptyString => EmptyString
  | String c s' =>
      if allowed_in_path c then String c (sub_runs false s')
      else if in_run then sub_runs true s'
      else String "_" (sub_runs true s')
  end.

Definition sanitize (s : string) : string := sub_runs false (Str.strip s).

Definition to_iso3 (country_slug : string) : string :=
  default (Str.take 3 (Str.upper country_slug)) (ISO3 !! Str.lower country_slug).

Definition to_lang2 (lang_code : string) : string :=
  default (Str.take 2 (Str.lower lang_code)) (LANG_MAP !! Str.lower lang_code).

(** [city_display]: the [in], [split] and [replace] on a [cid] that is not
    a string raise ([TypeError] for [in] on a non-container, otherwise
    [AttributeError]). *)
Definition city_display (city_obj : dict) : result string :=
  match get_default "id" (VStr "") city_obj with
  | VStr cid =>
      let name :=
        if Str.contains_char "_" cid then hd EmptyString (Str.split "_" cid) else cid in
      Ok (Str.title
            (Str.replace_char "/" " "
               (Str.replace_char "." " " (Str.replace_char "-" " " name))))
  | VList _ | VDict _ => Raise AttributeError
  | _ => Raise TypeError
  end.

(** ** Default cities *)

Definition infer_lang (country : string) : string :=
  if bool_decide (country ∈ ["mexico"; "spain"; "argentina"; "colombia"; "peru"; "chile"])
  then "es"
  else if bool_decide (country ∈ ["brazil"]) then "pt"
  else if bool_decide (country ∈ ["france"]) then "fr"
  else if bool_decide (country ∈ ["germany"]) then "de"
  else if bool_decide (country ∈ ["italy"]) then "it"
  else if bool_decide (country ∈ ["russia"]) then "ru"
  else if bool_decide (country ∈ ["turkey"]) then "tr"
  else if bool_decide (country ∈ ["egypt"]) then "ar"
  else if bool_decide (country ∈ ["india"]) then "hi"
  else if bool_decide (country ∈ ["indonesia"]) then "id"
  else if bool_decide (country ∈ ["thailand"]) then "th"
  else if bool_decide (country ∈ ["japan"]) then "ja"
  else if bool_decide (country ∈ ["south_korea"]) then "ko"
  else if bool_decide (country ∈ ["china"; "hong_kong_china"]) then "zh"
  else if bool_decide (country ∈ ["iran"]) then "fa"
  else if bool_decide (country ∈ ["pakistan"]) then "ur"
  else if bool_decide (country ∈ ["philippines"]) then "tl"
  else "en".

Definition default_city (city_id : string) : option dict :=
  let parts := Str.split "_" city_id in
  if (2 <=? length parts)%nat then
    let country := Str.join "_" (tail parts) in
    let lang := infer_lang country in
    Some [ ("id", VStr city_id);
           ("country", VStr country);
           ("map", VDict [("language", VStr lang)]) ]
  else None.

Definition create_default_cities : list dict :=
  omap default_city DEFAULT_CITIES.

(** ** Dedup key and per-batch deduplication *)

(** [(v or "").lower().strip()]. *)
Definition lower_strip (v : value) : result string :=
  s ← str_receiver (py_or v (VStr ""));
  Ok (Str.strip (Str.lower s)).

(** The key expression of [dedupe] and of the accumulation loop:
    [(r.get("email") or "").lower().strip()
       or ("ig:" + (r.get("instagram") or "").lower().strip())];
    the right operand of [or] is evaluated only when the left is empty. *)
Definition dedup_key (r : dict) : result string :=
  e ← lower_strip (get "email" r);
  if negb (Str.is_empty e) then Ok e
  else i ← lower_strip (get "instagram" r); Ok ("ig:" +:+ i).

(** The loop shared by [dedupe] (with [seen] empty at the start) and by
    the accumulation loop's filter (with the [seen_keys] of the run):
    [if key and key not in seen: seen.add(key); out.append(r)]. *)
Fixpoint add_unseen (rows : list dict) (seen : gset string) (out : list dict)
  : result (gset string * list dict) :=
  match rows with
  | [] => Ok (seen, out)
  | r :: rows' =>
      key ← dedup_key r;
      if negb (Str.is_empty key) && bool_decide (key ∉ seen)
      then add_unseen rows' ({[key]} ∪ seen) (out ++ [r])
      else add_unseen rows' seen out
  end.

Definition dedupe (rows : list dict) : result (list dict) :=
  '(_, out) ← add_unseen rows ∅ []; Ok out.

(** ** Validator / row normaliser *)

(** [for r in rows]: what iterating a value yields. *)
Definition iterate (v : value) : result (list value) :=
  match v with
  | VList l => Ok l
  | VDict d => Ok (VStr <$> d.*1)
  | VStr s => Ok ((λ c, VStr (String c EmptyString)) <$> String.list_ascii_of_string s)
  | _ => Raise TypeError
  end.

(** The [item] dict that the loop of [enforce_and_trim] builds from the
    trimmed name and the raw row. *)
Definition new_item (iso3 lang2 city_name partner_type name : string) (r : dict)
  : dict :=
  [ ("name", VStr name);
    ("email", py_or (get "email" r) VNone);
    ("country", VStr iso3);
    ("language", VStr lang2);
    ("city", VStr city_name);
    ("instagram", py_or (get "instagram" r) VNone);
    ("phone", py_or (get "phone" r) VNone);
    ("organization", py_or (get "organization" r) VNone);
    ("type", VStr partner_type);
    ("notes", py_or (get "notes" r) VNone) ].

(** The body of that loop on one raw row: the item, or [None] when the
    row is skipped. *)
Definition normalize_row (iso3 lang2 city_name partner_type : string) (r : value)
  : result (option dict) :=
  d ← dict_receiver r;
  name ← (s ← str_receiver (py_or (get "name" d) (VStr "")); Ok (Str.strip s));
  let item := new_item iso3 lang2 city_name partner_type name d in
  if negb (truthy (get "email" item) || truthy (get "instagram" item)) then Ok None
  else if negb (truthy (get "name" item)) then Ok None
  else Ok (Some item).

Fixpoint normalize_rows (iso3 lang2 city_name partner_type : string)
    (rows : list value) (normalized : list dict) : result (list dict) :=
  match rows with
  | [] => Ok normalized
  | r :: rows' =>
      o ← normalize_row iso3 lang2 city_name partner_type r;
      normalize_rows iso3 lang2 city_name partner_type rows'
        (match o with Some item => normalized ++ [item] | None => normalized end)
  end.

Definition enforce_and_trim (rows : value) (needed : Z)
    (iso3 lang2 city_name partner_type : string) : result (list dict) :=
  l ← iterate rows;
  normalized ← normalize_rows iso3 lang2 city_name partner_type l [];
  normalized ← dedupe normalized;
  Ok (slice_to needed normalized).

(** ** Model gateway: the response and its decoding *)

Record message := {
  msg_parsed : option value;     (* [None]: no such attribute *)
  msg_content : option string    (* [None]: no such attribute, or [None] *)
}.

Record response := {
  resp_parsed : option value;
  resp_choices : option (list message)   (* the [.message] of each choice *)
}.

Definition dquote : ascii := Ascii.ascii_of_N 34.

(** The two-character tokens the recovery looks for: a double quote
    followed by a closing brace, and a comma followed by an opening brace. *)
Definition quote_brace : string := String dquote "}".
Definition comma_brace : string := ",{".

(** Lines 200-210 of [call_openai]: the text handed to [json.loads]. *)
Definition recover_truncated (raw_content : string) : string :=
  let cleaned_content := Str.strip raw_content in
  if negb (Str.is_empty cleaned_content) && negb (Str.endswith cleaned_content "}")
  then
    let last_complete := Str.rfind quote_brace cleaned_content in
    if -1 <? last_complete then
      let incomplete_start :=
        Str.rfind_upto comma_brace cleaned_content (last_complete + 2) in
      if -1 <? incomplete_start
      then Str.take (Z.to_nat incomplete_start) cleaned_content +:+ "]}"
      else Str.take (Z.to_nat (last_complete + 2)) cleaned_content +:+ "]}"
    else cleaned_content
  else cleaned_content.

(** [hasattr(x, a) and x.a]: the attribute when present and truthy. *)
Definition attr_truthy (o : option value) : option value :=
  match o with
  | Some v => if truthy v then Some v else None
  | None => None
  end.

(** The [try] block of [call_openai], before its handlers. *)
Definition extract_data (json_loads : string → result value) (resp : response)
  : result value :=
  match attr_truthy (resp_parsed resp) with
  | Some p => Ok p
  | None =>
      match resp_choices resp with
      | Some (m :: _) =>
          match attr_truthy (msg_parsed m) with
          | Some mp => Ok mp
          | None =>
              match msg_content m with
              | Some raw_content =>
                  if negb (Str.is_empty raw_content)
                  then json_loads (recover_truncated raw_content)
                  else Raise (RuntimeError "No content found in response")
              | None => Raise (RuntimeError "No content found in response")
              end
          end
      | _ => Raise (RuntimeError "No valid response structure found")
      end
  end.

(** The handlers of [call_openai] and its final check: whatever the [try]
    block raises becomes a [RuntimeError] (the message text, which quotes
    the parse error and a snippet of the response, is abridged), and so
    does a result that is not a dict with a "contacts" key. *)
Definition decode_response (json_loads : string → result value) (resp : response)
  : result dict :=
  match extract_data json_loads resp with
  | Raise JSONDecodeError => Raise (RuntimeError "Failed to parse JSON response")
  | Raise _ => Raise (RuntimeError "Failed to parse model output")
  | Ok (VDict data) =>
      if has_key "contacts" data then Ok data
      else Raise (RuntimeError "Model did not return expected JSON with 'contacts'.")
  | Ok _ => Raise (RuntimeError "Model did not return expected JSON with 'contacts'.")
  end.

(** ** Prompt builder *)

(** The user prompt is a text rendered from these four arguments (and
    from [city_display] of the city, which [run_for_city] has already
    computed when it builds a prompt); the embedding keeps the arguments. *)
Record prompt := {
  prompt_city : dict;
  prompt_type : string;
  prompt_iso3 : string;
  prompt_lang2 : string
}.

Definition build_user_prompt (city : dict) (partner_type iso3 lang2 : string) : prompt :=
  {| prompt_city := city; prompt_type := partner_type;
     prompt_iso3 := iso3; prompt_lang2 := lang2 |}.

(** ** The world: disk, service calls and output *)

Inductive log_line :=
| LogSkipping (i : nat) (ptype : string)
| LogProcessingType (i : nat) (ptype : string)
| LogWrote (n : nat) (path : string)
| LogUsingDefaults
| LogProcessingCities (n : nat)
| LogProcessingCity (i n : nat) (city_id : value)
| LogWarn (cid : value) (e : exn)
| LogNotArray
| LogScanning (root : string)
| LogProcessed (path : string)
| LogReadError (path : string) (e : exn)
| LogMerged (n : nat) (path : string)
| LogNothingToMerge
| LogHelp
| LogUsage (message : string).

Inductive event :=
| EvRequest (model : string) (user : prompt)
| EvSleep
| EvWrite (path : string) (rows : list dict)
| EvPrint (to_stderr : bool) (l : log_line).

(** A CSV file on disk is the list of row dicts that [DictWriter] was
    given; [calls] counts the requests sent to the service; [trace] is
    everything the process did, in order. *)
Record world := World {
  fs : gmap string (list dict);
  calls : nat;
  trace : list event
}.

(** What the program does not control: the cities file as [json.load]
    reads it, the construction of the client, the answer of the service
    to the n-th request, [json.loads], [time.sleep(delay)] (which raises
    for a delay that is negative or not a number), the creation of a file
    and of the directories above it, [os.walk] (directory and its file
    names, in discovery order), [csv.DictReader] on a path (the rows
    the file yields, each field a string or [None], and the exception
    that ends the reading, if any), the import of the [openai] module at
    the top of the script, the printing of a line that holds U+2192
    (which a standard output in ASCII, Latin-1 or cp1252 refuses) and the
    writing of one generated row to an open file (which fails for a text
    that cannot be encoded). *)
Record env := Env {
  load_json : string → result value;
  new_client : result ();
  create_completion : nat → result response;
  json_loads : string → result value;
  pause : result ();
  open_for_write : string → result ();
  walk : string → list (string * list string);
  read_rows : string → list (list (string * option string)) * option exn;
  import_openai : result ();
  stdout_arrow : result ();
  row_error : dict → option exn
}.

Definition M (A : Type) : Type := world → result A * world.

#[global] Instance M_ret : MRet M := λ A a w, (Ok a, w).
#[global] Instance M_bind : MBind M := λ A B f m w,
  match m w with
  | (Ok a, w') => f a w'
  | (Raise e, w') => (Raise e, w')
  end.

Definition lift {A} (r : result A) : M A := λ w, (r, w).

Definition emit (e : event) : M () := λ w,
  (Ok (), {| fs := fs w; calls := calls w; trace := trace w ++ [e] |}).

Definition print (l : log_line) : M () := emit (EvPrint false l).
Definition print_err (l : log_line) : M () := emit (EvPrint true l).

(** [print] of a line that holds U+2192. *)
Definition print_arrow (E : env) (l : log_line) : M () := λ w,
  match stdout_arrow E with
  | Ok _ => print l w
  | Raise e => (Raise e, w)
  end.

(** [try: m  except Exception as e: h e]. *)
Definition try_except {A} (m : M A) (h : exn → M A) : M A := λ w,
  match m w with
  | (Raise e, w') => h e w'
  | r => r
  end.

(** [for x in l: body x]. *)
Fixpoint for_each {A} (l : list A) (body : A → M ()) : M () :=
  match l with
  | [] => mret ()
  | x :: l' => _ ← body x; for_each l' body
  end.

(** [enumerate(l, 1)]. *)
Definition enumerate1 {A} (l : list A) : list (nat * A) :=
  zip (seq 1 (length l)) l.

(** [time.sleep(delay)]. *)
Definition sleep (E : env) : M () := λ w,
  match pause E with
  | Ok _ => emit EvSleep w
  | Raise e => (Raise e, w)
  end.

(** ** Model gateway *)

Definition call_openai (E : env) (model : string) (user : prompt) : M dict := λ w,
  let w' := {| fs := fs w; calls := S (calls w);
               trace := trace w ++ [EvRequest model user] |} in
  match create_completion E (calls w) with
  | Raise e => (Raise e, w')
  | Ok resp => (decode_response (json_loads E) resp, w')
  end.

(** ** Persistence layer *)

(** [os.path.join(a, b)]. *)
Definition path_join (a b : string) : string :=
  if String.prefix "/" b then b
  else if Str.is_empty a || Str.endswith a "/" then a +:+ b
  else a +:+ "/" +:+ b.

(** [os.path.join(out_root, sanitize(city_id), partner_type, "contacts.csv")]. *)
Definition pair_path (out_root : string) (city_id : value) (partner_type : string)
  : result string :=
  cid ← str_receiver city_id;
  Ok (path_join (path_join (path_join out_root (sanitize cid)) partner_type)
        "contacts.csv").

(** [os.path.exists(path)]. *)
Definition path_exists (path : string) : M bool := λ w,
  (Ok (bool_decide (is_Some (fs w !! path))), w).

Definition file_exists (out_root : string) (city_id : value) (partner_type : string)
  : M bool :=
  out_path ← lift (pair_path out_root city_id partner_type);
  path_exists out_path.

(** [{k: r.get(k, "") or "" for k in CSV_HEADER}]. *)
Definition csv_row (r : dict) : dict :=
  (λ k, (k, py_or (get_default k (VStr "") r) (VStr ""))) <$> CSV_HEADER.

(** The writing of the merged file: [open(path, "w")], then the header
    and the rows, which were read from files.  A file that cannot be
    created leaves the disk as it was. *)
Definition write_file (E : env) (path : string) (rows : list dict) : M () := λ w,
  match open_for_write E path with
  | Ok _ =>
      (Ok (), {| fs := <[path := rows]> (fs w); calls := calls w;
                 trace := trace w ++ [EvWrite path rows] |})
  | Raise e => (Raise e, w)
  end.

(** The loop of [write_csv] over the rows, the file being open: the rows
    written, and the exception that ended the writing, if any. *)
Fixpoint write_rows (E : env) (rows : list dict) : list dict * option exn :=
  match rows with
  | [] => ([], None)
  | r :: rows' =>
      match row_error E (csv_row r) with
      | Some e => ([], Some e)
      | None =>
          let '(written, err) := write_rows E rows' in
          (csv_row r :: written, err)
      end
  end.

(** [write_csv]: [ensure_dir], [open(path, "w")], then the header and the
    rows one by one (the directories are not part of [fs]).  A file that
    cannot be created leaves the disk as it was; a row that cannot be
    written leaves the file with the rows before it, which the closing of
    the file flushes. *)
Definition write_csv (E : env) (path : string) (rows : list dict) : M () := λ w,
  match open_for_write E path with
  | Ok _ =>
      let '(written, err) := write_rows E rows in
      let w' := {| fs := <[path := written]> (fs w); calls := calls w;
                   trace := trace w ++ [EvWrite path written] |} in
      match err with
      | None => (Ok (), w')
      | Some e => (Raise e, w')
      end
  | Raise e => (Raise e, w)
  end.

(** ** The codes of a city

    The first two lines of [run_for_city]:
    [to_iso3(city.get("country", ""))] and
    [to_lang2((city.get("map") or {}).get("language", "en"))]. *)

Definition city_iso3 (city : dict) : result string :=
  s ← str_receiver (get_default "country" (VStr "") city);
  Ok (to_iso3 s).

Definition city_lang2 (city : dict) : result string :=
  m ← dict_receiver (py_or (get "map" city) (VDict []));
  s ← str_receiver (get_default "language" (VStr "en") m);
  Ok (to_lang2 s).

(** ** Accumulation loop *)

Section Generation.

Context (E : env) (model : string).

(** The [while] loop of [run_for_city].  It runs at most four times, as
    [attempts] starts at 0 and grows by one; [fuel] is that bound. *)
Fixpoint collect_loop (city : dict) (ptype iso3 lang2 city_name : string) (need : Z)
    (fuel : nat) (collected : list dict) (attempts : nat) (seen_keys : gset string)
  : M (list dict * nat) :=
  match fuel with
  | O => mret (collected, attempts)
  | S fuel' =>
      if (Z.of_nat (length collected) <? need) && (attempts <? 4)%nat then
        let prompt := build_user_prompt city ptype iso3 lang2 in
        data ← call_openai E model prompt;
        rows ← lift (enforce_and_trim (get_default "contacts" (VList []) data)
                       (need * 2) iso3 lang2 city_name ptype);
        '(seen_keys', new_batch) ← lift (add_unseen rows seen_keys []);
        _ ← sleep E;
        collect_loop city ptype iso3 lang2 city_name need fuel'
          (collected ++ new_batch) (S attempts) seen_keys'
      else mret (collected, attempts)
  end.

(** Lines 373-393: the loop from its initial state, then [collected[:need]]. *)
Definition collect (city : dict) (ptype iso3 lang2 city_name : string) (need : Z)
  : M (list dict) :=
  '(collected, _) ← collect_loop city ptype iso3 lang2 city_name need 4 [] 0%nat ∅;
  mret (slice_to need collected).

(** ** Orchestrator *)

(** The body of the loop over partner types, for one (city, type) pair. *)
Definition run_pair (city : dict) (per_type : Z) (out_root : string)
    (iso3 lang2 : string) (city_id : value) (city_name : string)
    (i : nat) (ptype : string) : M () :=
  skip ← file_exists out_root city_id ptype;
  if (skip : bool) then print (LogSkipping i ptype)
  else
    _ ← print (LogProcessingType i ptype);
    collected ← collect city ptype iso3 lang2 city_name per_type;
    out_path ← lift (pair_path out_root city_id ptype);
    _ ← write_csv E out_path collected;
    print_arrow E (LogWrote (length collected) out_path).

Definition run_for_city (city : dict) (per_type : Z) (out_root : string) : M () :=
  iso3 ← lift (city_iso3 city);
  lang2 ← lift (city_lang2 city);
  let city_id := get "id" city in
  city_name ← lift (city_display city);
  for_each (enumerate1 PARTNER_TYPES)
    (λ '(i, ptype),
       run_pair city per_type out_root iso3 lang2 city_id city_name i ptype).

End Generation.

(** ** Merge pass *)

(** The key of the merge loop; both halves are computed before the [or]. *)
Definition merge_key (row : dict) : result string :=
  email ← lower_strip (get "email" row);
  instagram ← lower_strip (get "instagram" row);
  Ok (if negb (Str.is_empty email) then email else "ig:" +:+ instagram).

(** The loop over the rows of one file.  The rows kept before an
    exception stay in [all_contacts]: the [try] is around the loop. *)
Fixpoint merge_rows (rows : list dict) (seen_keys : gset string)
    (all_contacts : list dict) : (gset string * list dict) * option exn :=
  match rows with
  | [] => ((seen_keys, all_contacts), None)
  | row :: rows' =>
      match merge_key row with
      | Raise e => ((seen_keys, all_contacts), Some e)
      | Ok key =>
          if negb (Str.is_empty key) && bool_decide (key ∉ seen_keys)
          then merge_rows rows' ({[key]} ∪ seen_keys) (all_contacts ++ [row])
          else merge_rows rows' seen_keys all_contacts
      end
  end.

(** A row as [DictReader] hands it over. *)
Definition reader_row (fields : list (string * option string)) : dict :=
  (λ kv, (kv.1, from_option VStr VNone kv.2)) <$> fields.

(** One discovered file: the [try] ... [except Exception] of [merge_csvs]. *)
Definition merge_file (E : env) (csv_path : string)
    (st : gset string * list dict) : M (gset string * list dict) :=
  let '(rows, read_error) := read_rows E csv_path in
  let '(st', key_error) := merge_rows (reader_row <$> rows) st.1 st.2 in
  match (match key_error with Some e => Some e | None => read_error end) with
  | None => _ ← print (LogProcessed csv_path); mret st'
  | Some e => _ ← print_err (LogReadError csv_path e); mret st'
  end.

Fixpoint merge_walk (E : env) (dirs : list (string * list string))
    (st : gset string * list dict) : M (gset string * list dict) :=
  match dirs with
  | [] => mret st
  | (root, files) :: dirs' =>
      if bool_decide ("contacts.csv" ∈ files)
      then st' ← merge_file E (path_join root "contacts.csv") st;
           merge_walk E dirs' st'
      else merge_walk E dirs' st
  end.

Definition merge_csvs (E : env) (out_root merge_output : string) : M () :=
  _ ← print (LogScanning out_root);
  '(_, all_contacts) ← merge_walk E (walk E out_root) (∅, []);
  match all_contacts with
  | _ :: _ =>
      _ ← write_file E merge_output (csv_row <$> all_contacts);
      print (LogMerged (length all_contacts) merge_output)
  | [] => print LogNothingToMerge
  end.

(** ** Command line *)

Record args := Args {
  arg_cities : option string;
  arg_out : string;
  arg_model : string;
  arg_per_type : Z;
  arg_merge : bool;
  arg_merge_output : string
}.

(** One turn of the loop over cities, with its [try] and its handler.
    Both the body and the handler call [city.get], which only a dict has. *)
Definition process_city (E : env) (a : args) (n : nat) (ic : nat * value) : M () :=
  let '(i, city) := ic in
  try_except
    (d ← lift (dict_receiver city);
     _ ← print (LogProcessingCity i n (get_default "id" (VStr "unknown") d));
     run_for_city E (arg_model a) d (arg_per_type a) (arg_out a))
    (λ e,
       d ← lift (dict_receiver city);
       print_err (LogWarn (get_default "id" (VStr "unknown") d) e)).

Definition run_cities (E : env) (a : args) (cities : list value) : M (option Z) :=
  _ ← print (LogProcessingCities (length cities));
  _ ← lift (new_client E);
  _ ← for_each (enumerate1 cities) (process_city E a (length cities));
  mret None.

(** [main] from the line after [args = ap.parse_args()] on, [a] being the
    arguments argparse handed over.  It returns [Some status] where it
    calls [sys.exit(status)]. *)
Definition main (E : env) (a : args) : M (option Z) :=
  if arg_merge a then
    _ ← merge_csvs E (arg_out a) (arg_merge_output a); mret None
  else
    match arg_cities a with
    | Some (String c p) =>
        cities ← lift (load_json E (String c p));
        match cities with
        | VList l => run_cities E a l
        | _ => _ ← print_err LogNotArray; mret (Some 1)
        end
    | _ =>
        _ ← print LogUsingDefaults;
        run_cities E a (VDict <$> create_default_cities)
    end.




(** * Notions used by the properties *)

(** ** Default cities *)

(** A city id names a city of several words when a country slug of the
    ISO-3 table ends it and what stands before that slug still holds an
    underscore. *)
Definition multi_word_city (city_id : string) : bool :=
  existsb
    (λ kv : string * string,
       Str.endswith city_id ("_" +:+ kv.1)
       && Str.contains_char "_"
            (Str.take (String.length city_id - String.length kv.1 - 1) city_id))
    ISO3_items.

Definition multi_word_default_cities : list dict :=
  List.filter
    (λ c, match get "id" c with VStr cid => multi_word_city cid | _ => false end)
    create_default_cities.

(** What the pipeline derives for a default city: its id, the inferred
    country slug, the entry of the ISO-3 table for it, the ISO-3 code used,
    the inferred language and the language code used. *)
Definition derived_codes (c : dict) :=
  (get "id" c, get "country" c,
   match get "country" c with VStr slug => ISO3 !! Str.lower slug | _ => None end,
   city_iso3 c,
   match get "map" c with VDict m => get "language" m | _ => VNone end,
   city_lang2 c).

(** The seven cities, computed. *)
Definition multi_word_default_cities_value : list dict :=
  Eval vm_compute in multi_word_default_cities.

(** ** Sample texts and rows *)

(** Sample texts are written with an apostrophe where the JSON text has a
    double quote. *)
Definition json_text : string → string := Str.replace_char "'" dquote.

Definition truncated_after_two : string :=
  json_text
    "{'contacts':[{'name':'A','email':'a@x'},{'name':'B','email':'b@x'},{'name':'C','em".

Definition truncated_after_null : string :=
  json_text "{'contacts':[{'name':'A','email':null},{'name':'C','em".

Definition nameless_channel_row : dict := [("name", VStr "X")].

(** ** Traces and paths *)

(** From [w] to [w'] the trace grew by events that all satisfy [P]. *)
Definition only_events (P : event → Prop) (w w' : world) : Prop :=
  ∃ evs, trace w' = trace w ++ evs ∧ Forall P evs.

Definition path_sep (a : string) : string :=
  if Str.is_empty a || Str.endswith a "/" then "" else "/".

(** ** Attempts *)

(** The rows of the attempt whose request is the [n]-th of the process:
    the answer of the service, decoded, validated and trimmed. *)
Definition attempt_rows (E : env) (iso3 lang2 city_name ptype : string) (need : Z)
    (n : nat) : result (list dict) :=
  resp ← create_completion E n;
  data ← decode_response (json_loads E) resp;
  enforce_and_trim (get_default "contacts" (VList []) data) (need * 2)
    iso3 lang2 city_name ptype.

(** The world after a request, and after the pause that follows an
    attempt that went through. *)
Definition requested (model : string) (p : prompt) (slept : bool) (w : world) : world :=
  {| fs := fs w; calls := S (calls w);
     trace := trace w ++ EvRequest model p :: (if slept then [EvSleep] else []) |}.

(** What the loop does to the world: requests for this pair and pauses. *)
Definition attempt_event (model : string) (user : prompt) (ev : event) : Prop :=
  ev = EvRequest model user ∨ ev = EvSleep.

(** An event that is neither a request for the pair [ptype] nor a write
    to [path]. *)
Definition leaves_pair (ptype path : string) (ev : event) : Prop :=
  match ev with
  | EvRequest _ p => prompt_type p ≠ ptype
  | EvWrite path' _ => path' ≠ path
  | _ => True
  end.

(** ** Valid items and first occurrences *)

(** What [enforce_and_trim] lets through, and what a written row shows:
    a trimmed name that is not empty, an email or an instagram handle that
    is not empty, and the four fields of the caller. *)
Definition valid_item (iso3 lang2 city_name ptype : string) (item : dict) : Prop :=
  (∃ name, get "name" item = VStr name ∧ name ≠ EmptyString ∧ Str.strip name = name)
  ∧ truthy (get "email" item) || truthy (get "instagram" item) = true
  ∧ get "country" item = VStr iso3
  ∧ get "language" item = VStr lang2
  ∧ get "city" item = VStr city_name
  ∧ get "type" item = VStr ptype.

(** The key of a row, for rows whose key can be computed. *)
Definition key_of (r : dict) : string :=
  match dedup_key r with Ok k => k | Raise _ => EmptyString end.

Definition keys (l : list dict) : gset string := list_to_set (key_of <$> l).

(** The rows whose key is neither in [seen] nor the key of an earlier row
    of the list. *)
Fixpoint unseen (seen : gset string) (rows : list dict) : list dict :=
  match rows with
  | [] => []
  | r :: rows' =>
      if decide (key_of r ∈ seen) then unseen seen rows'
      else r :: unseen ({[key_of r]} ∪ seen) rows'
  end.

(** The first record of each key, in the order of the list. *)
Definition first_occurrences : list dict → list dict := unseen ∅.

(** The validated items of the attempt whose request is the [n]-th of the
    process, before deduplication; none when the attempt raises. *)
Definition attempt_candidates (E : env) (iso3 lang2 city_name ptype : string)
    (n : nat) : list dict :=
  match (resp ← create_completion E n;
         data ← decode_response (json_loads E) resp;
         l ← iterate (get_default "contacts" (VList []) data);
         normalize_rows iso3 lang2 city_name ptype l []) with
  | Ok cands => cands
  | Raise _ => []
  end.

(** The candidates of [attempts] attempts, the first of which sends the
    request number [first]. *)
Definition run_candidates (E : env) (iso3 lang2 city_name ptype : string)
    (first attempts : nat) : list dict :=
  concat (attempt_candidates E iso3 lang2 city_name ptype <$> seq first attempts).

(** The state of the loop: [collected] is a prefix of the first
    occurrences of the candidates so far, and all of them while the target
    is not reached; [seen_keys] holds the keys of [collected]. *)
Definition loop_invariant (E : env) (iso3 lang2 city_name ptype : string) (need : Z)
    (first : nat) (collected : list dict) (attempts : nat)
    (seen : gset string) (w : world) : Prop :=
  calls w = (first + attempts)%nat
  ∧ seen = keys collected
  ∧ ∃ rest,
      first_occurrences (run_candidates E iso3 lang2 city_name ptype first attempts)
      = collected ++ rest
      ∧ (Z.of_nat (length collected) < need → rest = []).

(** ** Writes *)

(** The events a computation added to the trace. *)
Definition new_events (w w' : world) : list event :=
  drop (length (trace w)) (trace w').

(** Every write of a pair goes to the path of that pair and holds valid
    rows only. *)
Definition pair_write (out_root iso3 lang2 city_name : string) (city_id : value)
    (ptype : string) (ev : event) : Prop :=
  match ev with
  | EvWrite path rows =>
      pair_path out_root city_id ptype = Ok path
      ∧ Forall (valid_item iso3 lang2 city_name ptype) rows
  | _ => True
  end.

(** The same for a whole city, whose codes and display name the run
    derives from the city itself. *)
Definition city_write (city : dict) (out_root : string) (ev : event) : Prop :=
  match ev with
  | EvWrite path rows =>
      ∃ iso3 lang2 city_name ptype,
        city_iso3 city = Ok iso3
        ∧ city_lang2 city = Ok lang2
        ∧ city_display city = Ok city_name
        ∧ ptype ∈ PARTNER_TYPES
        ∧ pair_path out_root (get "id" city) ptype = Ok path
        ∧ Forall (valid_item iso3 lang2 city_name ptype) rows
  | _ => True
  end.

(** ** Cities, merge pass and exit status *)

Definition is_dict (v : value) : bool :=
  match v with VDict _ => true | _ => false end.

Definition city_label (d : dict) : value := get_default "id" (VStr "unknown") d.

(** The files the walk finds, in its order. *)
Definition discovered (dirs : list (string * list string)) : list string :=
  (λ rf, path_join rf.1 "contacts.csv")
    <$> filter (λ rf : string * list string, "contacts.csv" ∈ rf.2) dirs.

(** The rows the files yield, one file after the other, each up to the
    exception that ended its reading, if any. *)
Definition yielded_rows (E : env) (paths : list string) : list dict :=
  reader_row <$> concat ((λ p, (read_rows E p).1) <$> paths).

(** The line printed for a file. *)
Definition file_log (E : env) (path : string) : event :=
  match (read_rows E path).2 with
  | None => EvPrint false (LogProcessed path)
  | Some e => EvPrint true (LogReadError path e)
  end.

(** The contacts the merge keeps: the first occurrences, by key, among
    the rows the discovered files yielded. *)
Definition merged_contacts (E : env) (out_root : string) : list dict :=
  (merge_rows (yielded_rows E (discovered (walk E out_root))) ∅ []).1.2.

(** The world once the files have been read. *)
Definition scanned (E : env) (out_root : string) (w : world) : world :=
  {| fs := fs w; calls := calls w;
     trace := trace w
       ++ EvPrint false (LogScanning out_root)
          :: (file_log E <$> discovered (walk E out_root)) |}.







(** ** Sample environments *)

Definition paris : dict :=
  [ ("id", VStr "paris_france"); ("country", VStr "france");
    ("map", VDict [("language", VStr "fr")]) ].

(** Three raw contacts, the second a duplicate of the first up to case. *)
Definition sample_contacts : value :=
  VList
    [ VDict [("name", VStr "A"); ("email", VStr "a@x.com")];
      VDict [("name", VStr "A2"); ("email", VStr "A@X.COM")];
      VDict [("name", VStr "B"); ("instagram", VStr "@b")] ].

Definition sample_response : response :=
  {| resp_parsed := Some (VDict [("contacts", sample_contacts)]);
     resp_choices := None |}.

(** A service that always answers with the sample contacts; no cities
    file, nothing to merge. *)
Definition sample_env : env :=
  {| load_json := λ _, Raise (OSError "no such file");
     new_client := Ok ();
     create_completion := λ _, Ok sample_response;
     json_loads := λ _, Raise JSONDecodeError;
     pause := Ok ();
     open_for_write := λ _, Ok ();
     walk := λ _, [];
     read_rows := λ _, ([], None);
     import_openai := Ok ();
     stdout_arrow := Ok ();
     row_error := λ _, None |}.

(** A service that fails every request. *)
Definition failing_env : env :=
  {| load_json := load_json sample_env;
     new_client := Ok ();
     create_completion := λ _, Raise (ServiceError "connection refused");
     json_loads := json_loads sample_env;
     pause := Ok ();
     open_for_write := λ _, Ok ();
     walk := walk sample_env;
     read_rows := read_rows sample_env;
     import_openai := Ok ();
     stdout_arrow := Ok ();
     row_error := λ _, None |}.

(** One file under the root, whose reading yields a row and then fails. *)
Definition partial_read_env : env :=
  {| load_json := load_json sample_env;
     new_client := Ok ();
     create_completion := create_completion sample_env;
     json_loads := json_loads sample_env;
     pause := Ok ();
     open_for_write := λ _, Ok ();
     walk := λ _, [("out/paris_france/ngo", ["contacts.csv"])];
     read_rows := λ _,
       ([[("name", Some "X"); ("email", Some "x@y.org")]],
        Some (ValueError "invalid start byte"));
     import_openai := Ok ();
     stdout_arrow := Ok ();
     row_error := λ _, None |}.

Definition empty_world : world := {| fs := ∅; calls := 0; trace := [] |}.

(** A disk on which the file of (Paris, ngo) exists and holds no row. *)
Definition resumed_world : world :=
  {| fs := {[ "out/paris_france/ngo/contacts.csv" := [] ]}; calls := 0; trace := [] |}.

Definition sample_args : args :=
  {| arg_cities := None; arg_out := "out"; arg_model := "gpt-4o";
     arg_per_type := 100; arg_merge := false;
     arg_merge_output := "merged_contacts.csv" |}.


Definition sample_collect : result (list dict) * world :=
  collect sample_env "gpt-4o" paris "ngo" "FRA" "fr" "Paris" 2 empty_world.

Definition sample_out : list dict :=
  Eval vm_compute in
    match sample_collect.1 with Ok out => out | Raise _ => [] end.

Definition sample_after : world := Eval vm_compute in sample_collect.2.

Definition sample_city_run : result () * world :=
  run_for_city sample_env "gpt-4o" paris 2 "out" empty_world.

Definition sample_written : list dict :=
  Eval vm_compute in
    match new_events empty_world sample_city_run.2 !! 3%nat with
    | Some (EvWrite _ rows) => rows
    | _ => []
    end.

(** The environment in which a file whose reading raised yields nothing. *)
Definition skipping_failed_files (E : env) : env :=
  {| load_json := load_json E;
     new_client := new_client E;
     create_completion := create_completion E;
     json_loads := json_loads E;
     pause := pause E;
     open_for_write := open_for_write E;
     walk := walk E;
     read_rows := λ path,
       match (read_rows E path).2 with
       | Some e => ([], Some e)
       | None => read_rows E path
       end;
     import_openai := import_openai E;
     stdout_arrow := stdout_arrow E;
     row_error := row_error E |}.

(** ** Characters of a string *)

(** Every character of [s] satisfies [P]. *)
Fixpoint str_forall (P : ascii → bool) (s : string) : bool :=
  match s with
  | EmptyString => true
  | String c s' => P c && str_forall P s'
  end.

Definition is_ascii_char (c : ascii) : bool := (Str.code c <? 128)%N.

(** The display name made from the first segment of a city id. *)
Definition display_of_segment (name : string) : string :=
  Str.title
    (Str.replace_char "/" " "
       (Str.replace_char "." " " (Str.replace_char "-" " " name))).

(** A string that does not start with white space. *)
Definition starts_clean (s : string) : Prop :=
  match s with
  | EmptyString => True
  | String c _ => Str.is_space c = false
  end.

(** ** Reruns *)

(** What the run of a city prints when the files of its six pairs exist. *)
Definition skip_lines : list event :=
  (λ it : nat * string, EvPrint false (LogSkipping it.1 it.2))
    <$> enumerate1 PARTNER_TYPES.

(** The world after the first run of the sample city. *)
Definition sample_city_after : world := Eval vm_compute in sample_city_run.2.

(** A standard output that cannot encode U+2192. *)
Definition latin1_stdout_env : env :=
  {| load_json := load_json sample_env;
     new_client := Ok ();
     create_completion := create_completion sample_env;
     json_loads := json_loads sample_env;
     pause := Ok ();
     open_for_write := λ _, Ok ();
     walk := walk sample_env;
     read_rows := read_rows sample_env;
     import_openai := Ok ();
     stdout_arrow := Raise (ValueError "'latin-1' codec can't encode character");
     row_error := λ _, None |}.

(** ** Batches and the merge mode *)


(** The cities of a generation run: the elements of the array in the
    cities file, or the default cities when no file is named. *)
Definition cities_of (E : env) (a : args) : list value :=
  match arg_cities a with
  | Some (String c p) =>
      match load_json E (String c p) with
      | Ok (VList l) => l
      | _ => []
      end
  | _ => VDict <$> create_default_cities
  end.

(** A write of a batch is a write of one of the cities of the list. *)
Definition batch_write (cities : list value) (out_root : string) (ev : event) : Prop :=
  match ev with
  | EvWrite _ _ => ∃ city, VDict city ∈ cities ∧ city_write city out_root ev
  | _ => True
  end.

(** A cities file that holds the sample city, and a run over it. *)
Definition one_city_env : env :=
  {| load_json := λ _, Ok (VList [VDict paris]);
     new_client := Ok ();
     create_completion := create_completion sample_env;
     json_loads := json_loads sample_env;
     pause := Ok ();
     open_for_write := λ _, Ok ();
     walk := walk sample_env;
     read_rows := read_rows sample_env;
     import_openai := Ok ();
     stdout_arrow := Ok ();
     row_error := λ _, None |}.

Definition one_city_args : args :=
  {| arg_cities := Some "cities.json"; arg_out := "out"; arg_model := "gpt-4o";
     arg_per_type := 2; arg_merge := false;
     arg_merge_output := "merged_contacts.csv" |}.

(** * Properties *)

(** ** Default cities with a name of several words *)

Lemma multi_word_default_cities_eq :
  multi_word_default_cities = multi_word_default_cities_value.
Proof. vm_compute. reflexivity. Qed.

(** C10. In the built-in table the country slug is what follows the first
    underscore of the id.  For each of the seven cities whose name has
    several words this is not a key of the ISO-3 table: the code used is
    the first three characters of the slug in upper case, and the language
    is "en". *)
Theorem C10_multi_word_default_cities :
  derived_codes <$> multi_word_default_cities =
    [ (VStr "new_york_usa", VStr "york_usa", None, Ok "YOR", VStr "en", Ok "en");
      (VStr "los_angeles_usa", VStr "angeles_usa", None, Ok "ANG", VStr "en", Ok "en");
      (VStr "mexico_city_mexico", VStr "city_mexico", None, Ok "CIT", VStr "en", Ok "en");
      (VStr "sao_paulo_brazil", VStr "paulo_brazil", None, Ok "PAU", VStr "en", Ok "en");
      (VStr "buenos_aires_argentina", VStr "aires_argentina", None, Ok "AIR",
       VStr "en", Ok "en");
      (VStr "hong_kong_china", VStr "kong_china", None, Ok "KON", VStr "en", Ok "en");
      (VStr "san_francisco_usa", VStr "francisco_usa", None, Ok "FRA", VStr "en", Ok "en") ]
  ∧ Forall
      (λ c, ∃ cid slug,
          get "id" c = VStr cid
          ∧ get "country" c = VStr slug
          ∧ slug = Str.join "_" (tail (Str.split "_" cid))
          ∧ ISO3 !! Str.lower slug = None
          ∧ city_iso3 c = Ok (Str.take 3 (Str.upper slug))
          ∧ infer_lang slug = "en"
          ∧ city_lang2 c = Ok "en")
      multi_word_default_cities.
Proof.
  split; [vm_compute; reflexivity|].
  rewrite multi_word_default_cities_eq; unfold multi_word_default_cities_value.
  repeat (constructor;
    [eexists _, _; split; [reflexivity|]; split; [reflexivity|];
     vm_compute; repeat split; reflexivity|]).
  constructor.
Qed.

(** ** Truncation recovery *)

(** C1. A text cut in the third record, after two complete ones: the
    search for the comma and opening brace runs over the text up to the end
    of the last complete record, finds the start of that record and cuts
    there, so the complete record B is lost with the incomplete one.  A
    text whose complete record ends in [null] has no quote-and-brace at
    all and is handed to the parser as it came. *)
Theorem C1_recovery_loses_a_complete_record :
  recover_truncated truncated_after_two
    = json_text "{'contacts':[{'name':'A','email':'a@x'}]}"
  ∧ Str.contains (json_text "{'name':'B','email':'b@x'}") truncated_after_two = true
  ∧ Str.contains (json_text "'B'") (recover_truncated truncated_after_two) = false
  ∧ recover_truncated truncated_after_null = truncated_after_null.
Proof. vm_compute. repeat split; reflexivity. Qed.

(** ** Records with neither contact channel *)

(** C7. The key of a record with neither email nor instagram is "ig:",
    which is not empty: the guard [if key] lets it through, so [dedupe]
    keeps the record, the merge loop keeps a row read from disk with both
    fields empty, and [enforce_and_trim] keeps a raw row whose email is
    blank. *)
Theorem C7_record_with_neither_channel_is_kept :
  dedup_key nameless_channel_row = Ok "ig:"
  ∧ dedupe [nameless_channel_row] = Ok [nameless_channel_row]
  ∧ (let row := reader_row [("name", Some "X"); ("email", Some ""); ("instagram", Some "")] in
     merge_key row = Ok "ig:"
     ∧ (merge_rows [row] ∅ []).1.2 = [row])
  ∧ (∃ item,
       enforce_and_trim (VList [VDict [("name", VStr "X"); ("email", VStr " ")]])
         10 "FRA" "fr" "Paris" "ngo" = Ok [item]
       ∧ lower_strip (get "email" item) = Ok ""
       ∧ get "instagram" item = VNone).
Proof.
  split; [vm_compute; reflexivity|].
  split; [vm_compute; reflexivity|].
  split; [split; vm_compute; reflexivity|].
  eexists. split; [vm_compute; reflexivity|].
  split; vm_compute; reflexivity.
Qed.

(** ** Worlds reached by a computation *)

Lemma only_events_refl P w : only_events P w w.
Proof. exists []. by rewrite app_nil_r. Qed.

Lemma only_events_trans P w1 w2 w3 :
  only_events P w1 w2 → only_events P w2 w3 → only_events P w1 w3.
Proof.
  intros (evs1 & H1 & F1) (evs2 & H2 & F2). exists (evs1 ++ evs2).
  split; [by rewrite H2, H1, app_assoc | by apply Forall_app].
Qed.

Lemma only_events_emit (P : event → Prop) e w : P e → only_events P w (emit e w).2.
Proof. intros HP. exists [e]. split; [done | by constructor]. Qed.

Lemma only_events_impl (P Q : event → Prop) w w' :
  (∀ e, P e → Q e) → only_events P w w' → only_events Q w w'.
Proof.
  intros HPQ (evs & H & F). exists evs. split; [done|].
  eapply Forall_impl; eauto.
Qed.

(** ** Paths of the per-pair files *)

Lemma append_cons x (a b : string) : String x a +:+ b = String x (a +:+ b).
Proof. reflexivity. Qed.

Lemma append_assoc (a b c : string) : (a +:+ b) +:+ c = a +:+ (b +:+ c).
Proof.
  induction a as [|x a IH]; [reflexivity|].
  by rewrite !append_cons, IH.
Qed.

Lemma path_join_relative a b :
  String.prefix "/" b = false → path_join a b = a +:+ (path_sep a +:+ b).
Proof.
  intros Hb. unfold path_join, path_sep. rewrite Hb.
  by destruct (Str.is_empty a || Str.endswith a "/").
Qed.

Lemma pair_path_shape out_root cid t :
  String.prefix "/" t = false →
  ∃ sep, (sep = "" ∨ sep = "/")
    ∧ pair_path out_root (VStr cid) t
      = Ok (path_join out_root (sanitize cid)
              +:+ (path_sep (path_join out_root (sanitize cid))
                     +:+ (t +:+ (sep +:+ "contacts.csv")))).
Proof.
  intros Ht. unfold pair_path. simpl.
  set (P := path_join out_root (sanitize cid)).
  rewrite (path_join_relative P t Ht).
  rewrite (path_join_relative _ "contacts.csv") by done.
  exists (path_sep (P +:+ (path_sep P +:+ t))). split.
  - unfold path_sep. destruct (_ || _); auto.
  - by rewrite !append_assoc.
Qed.

Lemma pair_path_inj out_root city_id t1 t2 p :
  t1 ∈ PARTNER_TYPES → t2 ∈ PARTNER_TYPES →
  pair_path out_root city_id t1 = Ok p →
  pair_path out_root city_id t2 = Ok p →
  t1 = t2.
Proof.
  intros H1 H2 E1 E2.
  destruct city_id as [| | | |cid| |]; try discriminate.
  assert (Hrel : ∀ t, t ∈ PARTNER_TYPES → String.prefix "/" t = false).
  { intros t Ht. unfold PARTNER_TYPES in Ht.
    repeat (apply elem_of_cons in Ht as [->|Ht]; [reflexivity|]).
    by apply elem_of_nil in Ht. }
  destruct (pair_path_shape out_root cid t1 (Hrel _ H1)) as (s1 & Hs1 & E1').
  destruct (pair_path_shape out_root cid t2 (Hrel _ H2)) as (s2 & Hs2 & E2').
  rewrite E1 in E1'. rewrite E2 in E2'.
  injection E1' as ->. injection E2' as E.
  do 2 apply String.app_inj in E.
  unfold PARTNER_TYPES in H1, H2.
  repeat (apply elem_of_cons in H1 as [->|H1]);
    try (by apply elem_of_nil in H1);
    repeat (apply elem_of_cons in H2 as [->|H2]);
    try (by apply elem_of_nil in H2);
    try reflexivity;
    destruct Hs1 as [-> | ->], Hs2 as [-> | ->]; vm_compute in E; discriminate E.
Qed.

(** ** One attempt of the accumulation loop *)

Section Attempts.

Context (E : env) (model : string) (city : dict).
Context (ptype iso3 lang2 city_name : string) (need : Z).

Let user : prompt := build_user_prompt city ptype iso3 lang2.
Let loop := collect_loop E model city ptype iso3 lang2 city_name need.

Lemma collect_loop_step fuel collected attempts seen w :
  loop (S fuel) collected attempts seen w =
    if (Z.of_nat (length collected) <? need) && (attempts <? 4)%nat then
      match attempt_rows E iso3 lang2 city_name ptype need (calls w)
              ≫= (λ rows, add_unseen rows seen []) with
      | Ok (seen', new_batch) =>
          match pause E with
          | Ok _ =>
              loop fuel (collected ++ new_batch) (S attempts) seen'
                (requested model user true w)
          | Raise e => (Raise e, requested model user false w)
          end
      | Raise e => (Raise e, requested model user false w)
      end
    else (Ok (collected, attempts), w).
Proof.
  unfold loop, user. simpl.
  destruct ((Z.of_nat (length collected) <? need) && (attempts <? 4)%nat); [|done].
  unfold mbind at 1, M_bind, call_openai, attempt_rows, requested. simpl.
  destruct (create_completion E (calls w)) as [resp|e]; simpl; [|done].
  destruct (decode_response (json_loads E) resp) as [data|e]; simpl; [|done].
  unfold mbind at 1, M_bind, lift.
  destruct (enforce_and_trim _ _ _ _ _ _) as [rows|e]; simpl; [|done].
  unfold mbind at 1, M_bind.
  destruct (add_unseen rows seen []) as [[seen' new_batch]|e]; simpl; [|done].
  unfold mbind at 1, M_bind, sleep, emit. simpl.
  destruct (pause E) as [[]|e]; [|done].
  by rewrite <- app_assoc.
Qed.

Lemma requested_frame slept w :
  fs (requested model user slept w) = fs w
  ∧ only_events (attempt_event model user) w (requested model user slept w).
Proof.
  split; [done|]. eexists. split; [reflexivity|].
  destruct slept; repeat constructor; by right.
Qed.

Lemma collect_loop_frame fuel collected attempts seen w :
  fs (loop fuel collected attempts seen w).2 = fs w
  ∧ only_events (attempt_event model user) w (loop fuel collected attempts seen w).2.
Proof.
  revert collected attempts seen w.
  induction fuel as [|fuel IH]; intros collected attempts seen w.
  { split; [done | apply only_events_refl]. }
  rewrite collect_loop_step.
  destruct (_ && _); [|split; [done | apply only_events_refl]].
  destruct (_ ≫= _) as [[seen' new_batch]|e]; [|apply requested_frame].
  destruct (pause E) as [[]|e]; [|apply requested_frame].
  destruct (IH (collected ++ new_batch) (S attempts) seen'
              (requested model user true w)) as [Hfs Hev].
  destruct (requested_frame true w) as [Hfs' Hev'].
  split; [by rewrite Hfs | by eapply only_events_trans].
Qed.

Lemma collect_frame w :
  fs (collect E model city ptype iso3 lang2 city_name need w).2 = fs w
  ∧ only_events (attempt_event model user) w
      (collect E model city ptype iso3 lang2 city_name need w).2.
Proof.
  unfold collect, mbind, M_bind.
  pose proof (collect_loop_frame 4 [] 0%nat ∅ w) as H. fold loop.
  destruct (loop 4 [] 0%nat ∅ w) as [[[collected attempts]|e] w']; exact H.
Qed.

End Attempts.

(** ** One (city, type) pair *)

Lemma for_each_invariant {A} (I : world → Prop) (body : A → M ()) (l : list A) :
  (∀ x w, x ∈ l → I w → I (body x w).2) →
  ∀ w, I w → I (for_each l body w).2.
Proof.
  induction l as [|x l IH]; intros Hbody w Hw; [done|].
  simpl. unfold mbind, M_bind.
  assert (x ∈ x :: l) as Hin by (apply elem_of_cons; auto).
  pose proof (Hbody x w Hin Hw) as Hx.
  destruct (body x w) as [[[]|e] w1]; [|done].
  apply IH; [|done]. intros y w' Hy. apply Hbody. apply elem_of_cons; auto.
Qed.

Lemma enumerate1_elem {A} (l : list A) i x : (i, x) ∈ enumerate1 l → x ∈ l.
Proof. unfold enumerate1. intros H. by apply elem_of_zip_r in H. Qed.

(** The rows written are the first rows given, and all of them when no
    row fails. *)
Lemma write_rows_take E rows :
  ∃ n, (write_rows E rows).1 = take n (csv_row <$> rows).
Proof.
  induction rows as [|r rows [n IH]]; [by exists 0%nat|]. simpl.
  destruct (row_error E (csv_row r)); [by exists 0%nat|].
  destruct (write_rows E rows) as [written err]. simpl in *.
  exists (S n). by rewrite IH.
Qed.

Lemma write_rows_all E rows :
  (write_rows E rows).2 = None → (write_rows E rows).1 = csv_row <$> rows.
Proof.
  induction rows as [|r rows IH]; [done|]. simpl.
  destruct (row_error E (csv_row r)); [done|].
  destruct (write_rows E rows) as [written err]. simpl in *.
  intros H. by rewrite IH.
Qed.

Section Pairs.

Context (E : env) (model : string) (city : dict) (per_type : Z) (out_root : string).
Context (iso3 lang2 : string) (city_id : value) (city_name : string).

Let pair := run_pair E model city per_type out_root iso3 lang2 city_id city_name.

Lemma run_pair_skip i ptype path w :
  pair_path out_root city_id ptype = Ok path →
  is_Some (fs w !! path) →
  pair i ptype w = print (LogSkipping i ptype) w.
Proof.
  intros Hp Hex. unfold pair, run_pair, file_exists, mbind at 1, M_bind.
  unfold mbind at 1, M_bind, lift, path_exists. rewrite Hp.
  by rewrite bool_decide_eq_true_2.
Qed.

Lemma run_pair_no_path i ptype e w :
  pair_path out_root city_id ptype = Raise e →
  pair i ptype w = (Raise e, w).
Proof.
  intros Hp. unfold pair, run_pair, file_exists, mbind at 1, M_bind.
  unfold mbind at 1, M_bind, lift. by rewrite Hp.
Qed.

(** The pair whose file is missing: the loop runs, then the file is
    written and the count printed. *)
Lemma run_pair_fresh i ptype path w :
  pair_path out_root city_id ptype = Ok path →
  fs w !! path = None →
  pair i ptype w =
    match collect E model city ptype iso3 lang2 city_name per_type
            (print (LogProcessingType i ptype) w).2 with
    | (Ok collected, w1) =>
        match open_for_write E path with
        | Ok _ =>
            let written := (write_rows E collected).1 in
            let w2 := {| fs := <[path := written]> (fs w1); calls := calls w1;
                         trace := trace w1 ++ [EvWrite path written] |} in
            match (write_rows E collected).2 with
            | None => print_arrow E (LogWrote (length collected) path) w2
            | Some e => (Raise e, w2)
            end
        | Raise e => (Raise e, w1)
        end
    | (Raise e, w1) => (Raise e, w1)
    end.
Proof.
  intros Hp Hex. unfold pair, run_pair, file_exists, mbind at 1, M_bind.
  unfold mbind at 1, M_bind, lift, path_exists. rewrite Hp.
  rewrite bool_decide_eq_false_2 by (rewrite Hex; by intros [? ?]).
  unfold mbind at 1, M_bind. simpl.
  unfold mbind at 1, M_bind.
  destruct (collect _ _ _ _ _ _ _ _ _) as [[collected|e] w1]; [|done].
  unfold mbind at 1, M_bind. simpl.
  unfold mbind at 1, M_bind, write_csv.
  destruct (open_for_write E path) as [[]|e]; [|done].
  by destruct (write_rows E collected) as [written [e|]].
Qed.

(** What such a turn adds to the world the loop left: nothing, when the
    loop raised or the file could not be created; otherwise the file of
    the pair with the first rows collected (all of them when the turn
    returns), then at most the line that reports it. *)
Lemma run_pair_fresh_tail i ptype path w :
  pair_path out_root city_id ptype = Ok path →
  fs w !! path = None →
  let c := collect E model city ptype iso3 lang2 city_name per_type
             (print (LogProcessingType i ptype) w).2 in
  (∃ e, pair i ptype w = (Raise e, c.2))
  ∨ ∃ collected n tail,
      c.1 = Ok collected
      ∧ fs (pair i ptype w).2 = <[path := take n (csv_row <$> collected)]> (fs c.2)
      ∧ calls (pair i ptype w).2 = calls c.2
      ∧ trace (pair i ptype w).2
        = trace c.2 ++ EvWrite path (take n (csv_row <$> collected)) :: tail
      ∧ (tail = [] ∨ tail = [EvPrint false (LogWrote (length collected) path)])
      ∧ ((pair i ptype w).1 = Ok () →
         take n (csv_row <$> collected) = csv_row <$> collected
         ∧ tail = [EvPrint false (LogWrote (length collected) path)]).
Proof.
  intros Hp Hex c. rewrite (run_pair_fresh _ _ path) by done. fold c.
  destruct c as [[collected|e] w1]; [|left; by exists e].
  destruct (open_for_write E path) as [[]|e]; [|left; by exists e].
  right. destruct (write_rows_take E collected) as [n Hn].
  pose proof (write_rows_all E collected) as Hall.
  cbv zeta. rewrite Hn in *.
  destruct (write_rows E collected).2 as [e|].
  - exists collected, n, []. simpl. repeat split; auto; discriminate.
  - unfold print_arrow. destruct (stdout_arrow E) as [[]|e].
    + exists collected, n, [EvPrint false (LogWrote (length collected) path)].
      simpl. rewrite <- app_assoc. repeat split; auto.
    + exists collected, n, []. simpl. repeat split; auto; discriminate.
Qed.

Lemma run_pair_leaves ptype path i ptype' w :
  ptype ∈ PARTNER_TYPES → ptype' ∈ PARTNER_TYPES →
  pair_path out_root city_id ptype = Ok path →
  is_Some (fs w !! path) →
  fs (pair i ptype' w).2 !! path = fs w !! path
  ∧ only_events (leaves_pair ptype path) w (pair i ptype' w).2.
Proof.
  intros Ht Ht' Hp Hex.
  destruct (pair_path out_root city_id ptype') as [path'|e] eqn:Hp'.
  2:{ rewrite (run_pair_no_path _ _ e) by done. split; [done | apply only_events_refl]. }
  destruct (fs w !! path') as [rows|] eqn:Hex'.
  { rewrite (run_pair_skip _ _ path') by (rewrite ?Hex'; eauto).
    split; [done | by apply only_events_emit]. }
  assert (ptype' ≠ ptype) as Hne.
  { intros ->. rewrite Hp in Hp'. injection Hp' as ->. rewrite Hex' in Hex.
    by destruct Hex. }
  assert (path' ≠ path) as Hpne.
  { intros ->. apply Hne. by eapply pair_path_inj. }
  set (w0 := (print (LogProcessingType i ptype') w).2).
  destruct (collect_frame E model city ptype' iso3 lang2 city_name per_type w0)
    as [Hfs Hev].
  assert (only_events (leaves_pair ptype path) w w0) as H0
    by (by apply only_events_emit).
  assert (only_events (leaves_pair ptype path) w0
            (collect E model city ptype' iso3 lang2 city_name per_type w0).2) as H1.
  { eapply only_events_impl; [|exact Hev]. intros ev [-> | ->]; simpl; done. }
  destruct (run_pair_fresh_tail i ptype' path' w Hp' Hex')
    as [[e ->] | (collected & n & tail & _ & Hfs' & _ & Htr & Htail & _)].
  - fold w0. simpl. split; [by rewrite Hfs | by eapply only_events_trans].
  - fold w0 in Hfs', Htr. split.
    + rewrite Hfs', lookup_insert_ne by done. by rewrite Hfs.
    + eapply only_events_trans; [exact H0|].
      eapply only_events_trans; [exact H1|].
      eexists. split; [exact Htr|].
      constructor; [done|]. destruct Htail as [-> | ->]; by repeat constructor.
Qed.

End Pairs.

(** C5. When the file of a (city, type) pair exists, whatever it holds,
    the pair is skipped: its turn only prints the skip line, and over the
    whole run of the city no request is sent for that pair, nothing is
    written to its path and the file is left as it was. *)
Theorem C5_existing_file_is_skipped
    (E : env) (model : string) (city : dict) (per_type : Z) (out_root : string)
    (ptype path : string) (w : world) :
  ptype ∈ PARTNER_TYPES →
  pair_path out_root (get "id" city) ptype = Ok path →
  is_Some (fs w !! path) →
  (∀ iso3 lang2 city_name i,
     run_pair E model city per_type out_root iso3 lang2 (get "id" city) city_name
       i ptype w
     = (Ok (), {| fs := fs w; calls := calls w;
                  trace := trace w ++ [EvPrint false (LogSkipping i ptype)] |}))
  ∧ fs (run_for_city E model city per_type out_root w).2 !! path = fs w !! path
  ∧ only_events (leaves_pair ptype path) w
      (run_for_city E model city per_type out_root w).2.
Proof.
  intros Ht Hp Hex. split.
  { intros iso3 lang2 city_name i. by erewrite run_pair_skip. }
  unfold run_for_city, mbind at 1, M_bind, lift.
  destruct (city_iso3 city) as [iso3|e]; [|split; [done | apply only_events_refl]].
  unfold mbind at 1, M_bind.
  destruct (city_lang2 city) as [lang2|e]; [|split; [done | apply only_events_refl]].
  unfold mbind at 1, M_bind.
  destruct (city_display city) as [city_name|e];
    [|split; [done | apply only_events_refl]].
  apply (for_each_invariant
           (λ w', fs w' !! path = fs w !! path
                  ∧ only_events (leaves_pair ptype path) w w')).
  - intros [i ptype'] w' Hin [Hfs Hev].
    apply enumerate1_elem in Hin.
    destruct (run_pair_leaves E model city per_type out_root iso3 lang2
                (get "id" city) city_name ptype path i ptype' w') as [Hfs' Hev'];
      [done | done | done | by rewrite Hfs |].
    split; [by rewrite Hfs', Hfs | by eapply only_events_trans].
  - split; [done | apply only_events_refl].
Qed.

(** ** Trimmed strings *)

Lemma rstrip_cons c s :
  Str.rstrip (String c s) =
    if Str.is_empty (Str.rstrip s) && Str.is_space c then EmptyString
    else String c (Str.rstrip s).
Proof. simpl. destruct (Str.rstrip s); simpl; [|done]. by destruct (Str.is_space c). Qed.

Lemma rstrip_idemp s : Str.rstrip (Str.rstrip s) = Str.rstrip s.
Proof.
  induction s as [|c s IH]; [done|].
  rewrite rstrip_cons.
  destruct (Str.is_empty (Str.rstrip s) && Str.is_space c) eqn:Hc; [done|].
  by rewrite rstrip_cons, IH, Hc.
Qed.

Lemma lstrip_head s :
  match Str.lstrip s with
  | EmptyString => True
  | String c _ => Str.is_space c = false
  end.
Proof.
  induction s as [|c s IH]; [done|]. simpl.
  by destruct (Str.is_space c) eqn:Hc.
Qed.

Lemma strip_idemp s : Str.strip (Str.strip s) = Str.strip s.
Proof.
  unfold Str.strip. pose proof (lstrip_head s) as Hh.
  destruct (Str.lstrip s) as [|c t]; [done|].
  rewrite rstrip_cons, Hh, andb_false_r. simpl Str.lstrip. rewrite Hh.
  by rewrite rstrip_cons, rstrip_idemp, Hh, andb_false_r.
Qed.

Lemma is_empty_false s : Str.is_empty s = false ↔ s ≠ EmptyString.
Proof. by destruct s. Qed.

(** ** Validated items *)

Section Validation.

Context (iso3 lang2 city_name ptype : string).

Let valid := valid_item iso3 lang2 city_name ptype.

Lemma normalize_row_valid r item :
  normalize_row iso3 lang2 city_name ptype r = Ok (Some item) → valid item.
Proof.
  unfold normalize_row. destruct r as [| | | | | |d]; try discriminate. simpl.
  destruct (py_or (get "name" d) (VStr "")) as [| | | |s| |]; try discriminate.
  simpl.
  set (it := new_item iso3 lang2 city_name ptype (Str.strip s) d).
  change (get "email" it) with (py_or (get "email" d) VNone).
  change (get "instagram" it) with (py_or (get "instagram" d) VNone).
  change (get "name" it) with (VStr (Str.strip s)).
  destruct (truthy (py_or (get "email" d) VNone)
            || truthy (py_or (get "instagram" d) VNone)) eqn:Hch;
    simpl; [|discriminate].
  destruct (Str.is_empty (Str.strip s)) eqn:Hn; simpl; [discriminate|].
  intros [= <-]. split; [|by repeat split].
  exists (Str.strip s). split; [done|]. split; [|apply strip_idemp].
  by apply is_empty_false.
Qed.

Lemma normalize_rows_valid rows acc out :
  normalize_rows iso3 lang2 city_name ptype rows acc = Ok out →
  Forall valid acc → Forall valid out.
Proof.
  revert acc. induction rows as [|r rows IH]; intros acc; simpl.
  { by intros [= <-]. }
  destruct (normalize_row iso3 lang2 city_name ptype r) as [o|e] eqn:Hr;
    simpl; [|discriminate].
  intros Hout Hacc. apply (IH _ Hout).
  destruct o as [item|]; [|done].
  apply Forall_app. split; [done|].
  constructor; [|done]. by eapply normalize_row_valid.
Qed.

End Validation.

(** ** First occurrences *)

Lemma keys_cons r l : keys (r :: l) = {[key_of r]} ∪ keys l.
Proof. reflexivity. Qed.

Lemma unseen_sublist X l : unseen X l `sublist_of` l.
Proof.
  revert X. induction l as [|r l IH]; intros X; simpl; [constructor|].
  case_decide; [apply sublist_cons | apply sublist_skip]; apply IH.
Qed.

Lemma unseen_keys X l : keys (unseen X l) ∪ X = keys l ∪ X.
Proof.
  revert X. induction l as [|r l IH]; intros X; simpl; [done|].
  case_decide; rewrite ?keys_cons.
  - rewrite IH. set_solver.
  - specialize (IH ({[key_of r]} ∪ X)).
    set (A := keys (unseen _ l)) in *. set (B := keys l) in *. clearbody A B.
    apply set_eq. intros y. pose proof (proj1 (set_eq _ _) IH y) as Hy.
    clear IH. set_solver.
Qed.

Lemma unseen_fresh X l r : r ∈ unseen X l → key_of r ∉ X.
Proof.
  revert X. induction l as [|x l IH]; intros X; simpl.
  { by intros ?%elem_of_nil. }
  case_decide; [apply IH|].
  intros [-> | Hin]%elem_of_cons; [done|].
  apply IH in Hin. set_solver.
Qed.

Lemma unseen_NoDup X l : NoDup (key_of <$> unseen X l).
Proof.
  revert X. induction l as [|x l IH]; intros X; simpl; [constructor|].
  case_decide; [apply IH|].
  rewrite fmap_cons. apply NoDup_cons. split; [|apply IH].
  intros (r & Hk & Hin)%list_elem_of_fmap.
  apply unseen_fresh in Hin. set_solver.
Qed.

Lemma unseen_app X l1 l2 :
  unseen X (l1 ++ l2) = unseen X l1 ++ unseen (keys l1 ∪ X) l2.
Proof.
  revert X. induction l1 as [|r l1 IH]; intros X; simpl.
  { f_equal. unfold keys. set_solver. }
  case_decide.
  - rewrite IH. do 2 f_equal. rewrite keys_cons. set_solver.
  - rewrite IH. simpl. do 3 f_equal. rewrite keys_cons. set_solver.
Qed.

Lemma unseen_ext X1 X2 l :
  (∀ r, r ∈ l → key_of r ∈ X1 ↔ key_of r ∈ X2) → unseen X1 l = unseen X2 l.
Proof.
  revert X1 X2. induction l as [|x l IH]; intros X1 X2 Hx; simpl; [done|].
  assert (key_of x ∈ X1 ↔ key_of x ∈ X2) as Hhd by (apply Hx, elem_of_cons; auto).
  do 2 case_decide; try tauto.
  - apply IH. intros r Hr. apply Hx, elem_of_cons; auto.
  - f_equal. apply IH. intros r Hr.
    assert (key_of r ∈ X1 ↔ key_of r ∈ X2) by (apply Hx, elem_of_cons; auto).
    set_solver.
Qed.

Lemma unseen_unseen X0 X l : X0 ⊆ X → unseen X (unseen X0 l) = unseen X l.
Proof.
  revert X0 X. induction l as [|x l IH]; intros X0 X Hsub; simpl; [done|].
  destruct (decide (key_of x ∈ X0)) as [H0|H0].
  - rewrite decide_True by set_solver. by apply IH.
  - simpl. case_decide; [|f_equal]; apply IH; set_solver.
Qed.

Lemma unseen_length X l :
  NoDup (key_of <$> l) → (length l ≤ length (unseen X l) + size X)%nat.
Proof.
  revert X. induction l as [|x l IH]; intros X Hnd; simpl; [lia|].
  rewrite fmap_cons in Hnd. apply NoDup_cons in Hnd as [Hx Hnd].
  assert (∀ X', (∀ k, k ≠ key_of x → k ∈ X' ↔ k ∈ X) → unseen X' l = unseen X l)
    as Hsame.
  { intros X' HS'. apply unseen_ext. intros r Hr. apply HS'.
    intros Heq. apply Hx. rewrite <- Heq. by apply list_elem_of_fmap_2. }
  case_decide as Hin.
  - rewrite <- (Hsame (X ∖ {[key_of x]})) by set_solver.
    specialize (IH (X ∖ {[key_of x]}) Hnd).
    assert ({[key_of x]} ⊆ X) as Hsub by set_solver.
    pose proof (size_difference X {[key_of x]} Hsub) as Hsz.
    pose proof (subseteq_size _ _ Hsub) as Hle.
    rewrite size_singleton in Hsz, Hle. lia.
  - simpl. rewrite (Hsame ({[key_of x]} ∪ X)) by set_solver.
    specialize (IH X Hnd). lia.
Qed.


(** ** What the loops compute *)

Lemma dedup_key_nonempty r k : dedup_key r = Ok k → Str.is_empty k = false.
Proof.
  unfold dedup_key.
  destruct (lower_strip (get "email" r)) as [e|]; simpl; [|discriminate].
  destruct (Str.is_empty e) eqn:He; simpl; [|by intros [= <-]].
  destruct (lower_strip (get "instagram" r)) as [i|]; simpl; [|discriminate].
  by intros [= <-].
Qed.

Lemma add_unseen_spec rows seen out seen' out' :
  add_unseen rows seen out = Ok (seen', out') →
  out' = out ++ unseen seen rows ∧ seen' = keys (unseen seen rows) ∪ seen.
Proof.
  revert seen out. induction rows as [|r rows IH]; intros seen out; simpl.
  { intros [= <- <-]. rewrite app_nil_r. split; [done|]. unfold keys. set_solver. }
  destruct (dedup_key r) as [key|e] eqn:Hkey; simpl; [|discriminate].
  assert (key_of r = key) as Hk by (unfold key_of; by rewrite Hkey).
  rewrite Hk, (dedup_key_nonempty _ _ Hkey). simpl.
  destruct (decide (key ∈ seen)) as [Hin|Hin].
  - rewrite bool_decide_eq_false_2 by tauto. apply IH.
  - rewrite bool_decide_eq_true_2 by done.
    intros [-> ->]%IH. rewrite <- app_assoc. split; [done|].
    rewrite keys_cons, Hk. set_solver.
Qed.

Lemma dedupe_spec rows out : dedupe rows = Ok out → out = first_occurrences rows.
Proof.
  unfold dedupe.
  destruct (add_unseen rows ∅ []) as [[seen' out']|e] eqn:H; simpl; [|discriminate].
  intros [= <-]. by apply add_unseen_spec in H as [-> _].
Qed.

Lemma keys_app l1 l2 : keys (l1 ++ l2) = keys l1 ∪ keys l2.
Proof. unfold keys. rewrite fmap_app. apply list_to_set_app_L. Qed.

Lemma first_occurrences_app l1 l2 :
  first_occurrences (l1 ++ l2)
  = first_occurrences l1 ++ unseen (keys (first_occurrences l1)) l2.
Proof.
  unfold first_occurrences. rewrite unseen_app. f_equal.
  pose proof (unseen_keys ∅ l1) as H. rewrite !union_empty_r_L in H.
  by rewrite H, union_empty_r_L.
Qed.

Lemma size_keys_unseen X l : size (keys (unseen X l)) = length (unseen X l).
Proof.
  unfold keys. rewrite size_list_to_set by apply unseen_NoDup.
  by rewrite length_fmap.
Qed.

(** Filtering a cut of a list of first occurrences gives a prefix of the
    filtered list; when the cut dropped something, the prefix has at least
    [n - size X] rows. *)
Lemma unseen_take X n l :
  ∃ rest, unseen X (first_occurrences l)
          = unseen X (take n (first_occurrences l)) ++ rest
    ∧ ((length (unseen X (take n (first_occurrences l))) + size X < n)%nat →
       rest = []).
Proof.
  set (D := first_occurrences l).
  exists (unseen (keys (take n D) ∪ X) (drop n D)). split.
  { by rewrite <- unseen_app, take_drop. }
  intros Hlt.
  destruct (decide (n ≤ length D)%nat) as [Hle|Hgt].
  - assert (NoDup (key_of <$> take n D)) as Hnd.
    { rewrite fmap_take. eapply sublist_NoDup; [|apply sublist_take].
      apply unseen_NoDup. }
    pose proof (unseen_length X _ Hnd) as Hlen.
    rewrite length_take_le in Hlen by done. lia.
  - by rewrite drop_ge by lia.
Qed.

(** ** The candidates of a run *)

Section Accumulation.

Context (E : env) (model : string) (city : dict).
Context (ptype iso3 lang2 city_name : string) (need : Z).

Let valid := valid_item iso3 lang2 city_name ptype.
Let loop := collect_loop E model city ptype iso3 lang2 city_name need.
Let candidates := attempt_candidates E iso3 lang2 city_name ptype.
Let run := run_candidates E iso3 lang2 city_name ptype.
Let invariant := loop_invariant E iso3 lang2 city_name ptype need.

Lemma attempt_candidates_valid n : Forall valid (candidates n).
Proof.
  unfold candidates, attempt_candidates.
  destruct (create_completion E n) as [resp|]; simpl; [|constructor].
  destruct (decode_response _ resp) as [data|]; simpl; [|constructor].
  destruct (iterate _) as [l|]; simpl; [|constructor].
  destruct (normalize_rows _ _ _ _ l []) as [cands|] eqn:Hn; [|constructor].
  eapply normalize_rows_valid; [exact Hn | constructor].
Qed.

Lemma run_candidates_valid first attempts : Forall valid (run first attempts).
Proof.
  unfold run, run_candidates. apply Forall_concat, Forall_fmap, Forall_forall.
  intros n _. apply attempt_candidates_valid.
Qed.

Lemma run_candidates_S first attempts :
  run first (S attempts) = run first attempts ++ candidates (first + attempts).
Proof.
  unfold run, run_candidates. rewrite seq_S, fmap_app, concat_app. simpl.
  by rewrite app_nil_r.
Qed.

Lemma attempt_rows_spec n rows :
  attempt_rows E iso3 lang2 city_name ptype need n = Ok rows →
  rows = slice_to (need * 2) (first_occurrences (candidates n)).
Proof.
  unfold attempt_rows, candidates, attempt_candidates, enforce_and_trim.
  destruct (create_completion E n) as [resp|]; simpl; [|discriminate].
  destruct (decode_response _ resp) as [data|]; simpl; [|discriminate].
  destruct (iterate _) as [l|]; simpl; [|discriminate].
  destruct (normalize_rows _ _ _ _ l []) as [cands|]; simpl; [|discriminate].
  destruct (dedupe cands) as [d|] eqn:Hd; simpl; [|discriminate].
  intros [= <-]. by rewrite (dedupe_spec _ _ Hd).
Qed.

Lemma loop_invariant_step first collected attempts seen w rows seen' new_batch :
  invariant first collected attempts seen w →
  Z.of_nat (length collected) < need →
  attempt_rows E iso3 lang2 city_name ptype need (calls w) = Ok rows →
  add_unseen rows seen [] = Ok (seen', new_batch) →
  ∀ slept,
    invariant first (collected ++ new_batch) (S attempts) seen'
      (requested model (build_user_prompt city ptype iso3 lang2) slept w).
Proof.
  intros (Hcalls & -> & rest & Hrun & Hrest) Hshort Hrows Hadd slept.
  rewrite (Hrest Hshort), app_nil_r in Hrun. clear rest Hrest.
  apply attempt_rows_spec in Hrows. apply add_unseen_spec in Hadd as [-> ->].
  simpl in *.
  assert (slice_to (need * 2) (first_occurrences (candidates (calls w)))
          = take (Z.to_nat (need * 2)) (first_occurrences (candidates (calls w))))
    as Hslice.
  { unfold slice_to. by rewrite (proj2 (Z.leb_le 0 (need * 2))) by lia. }
  rewrite Hslice in Hrows. subst rows.
  split; [simpl; lia|]. split.
  { by rewrite keys_app, (comm_L (∪)). }
  fold run in Hrun.
  destruct (unseen_take (keys collected) (Z.to_nat (need * 2))
              (candidates (calls w))) as (rest & Hsplit & Hnil).
  exists rest. split.
  - rewrite run_candidates_S, first_occurrences_app, Hrun, <- app_assoc.
    f_equal. rewrite <- Hsplit, <- Hcalls.
    unfold first_occurrences. symmetry. apply unseen_unseen. set_solver.
  - intros Hlen. apply Hnil.
    rewrite <- Hrun at 2. unfold first_occurrences at 2.
    rewrite size_keys_unseen. fold (first_occurrences (run first attempts)).
    rewrite Hrun. rewrite length_app in Hlen. lia.
Qed.

Lemma collect_loop_invariant first fuel collected attempts seen w collected' attempts' w' :
  invariant first collected attempts seen w →
  loop fuel collected attempts seen w = (Ok (collected', attempts'), w') →
  ∃ seen', invariant first collected' attempts' seen' w'.
Proof.
  revert collected attempts seen w.
  induction fuel as [|fuel IH]; intros collected attempts seen w Hinv.
  { intros [= <- <- <-]. eauto. }
  unfold loop in *. rewrite collect_loop_step.
  destruct (Z.of_nat (length collected) <? need) eqn:Hshort; simpl;
    [|intros [= <- <- <-]; eauto].
  destruct (attempts <? 4)%nat; [|intros [= <- <- <-]; eauto].
  destruct (attempt_rows _ _ _ _ _ _ _) as [rows|e] eqn:Hrows; simpl; [|discriminate].
  destruct (add_unseen rows seen []) as [[seen' new_batch]|e] eqn:Hadd;
    [|discriminate].
  destruct (pause E) as [[]|e]; [|discriminate].
  apply IH. eapply loop_invariant_step; eauto. lia.
Qed.

Lemma collect_loop_exit fuel collected attempts seen w collected' attempts' w' :
  (4 ≤ fuel + attempts)%nat →
  loop fuel collected attempts seen w = (Ok (collected', attempts'), w') →
  (attempts ≤ attempts')%nat
  ∧ (attempts' ≤ Nat.max attempts 4)%nat
  ∧ (need ≤ Z.of_nat (length collected') ∨ (4 ≤ attempts')%nat).
Proof.
  revert collected attempts seen w.
  induction fuel as [|fuel IH]; intros collected attempts seen w Hfuel.
  { intros [= <- <- <-]. lia. }
  unfold loop in *. rewrite collect_loop_step.
  destruct (Z.ltb_spec (Z.of_nat (length collected)) need) as [Hshort|Hfull];
    simpl; [|intros [= <- <- <-]; lia].
  destruct (Nat.ltb_spec attempts 4) as [Hbudget|Hdone];
    [|intros [= <- <- <-]; lia].
  destruct (_ ≫= _) as [[seen' new_batch]|e]; [|discriminate].
  destruct (pause E) as [[]|e]; [|discriminate].
  intros H. apply IH in H; [|lia]. lia.
Qed.

Lemma slice_to_nonneg {A} n (l : list A) : 0 ≤ n → slice_to n l = take (Z.to_nat n) l.
Proof. intros Hn. unfold slice_to. by rewrite (proj2 (Z.leb_le 0 n)). Qed.

Lemma slice_to_take {A} n (l : list A) : ∃ m, slice_to n l = take m l.
Proof. unfold slice_to. destruct (0 <=? n); eauto. Qed.

(** What [collect] returns: the loop made [attempts] requests, at most
    four, and stopped because the target was reached or the fourth attempt
    was done; the result is the cut at [need] of the first occurrences of
    the candidates of these attempts. *)
Lemma collect_spec w out w' :
  collect E model city ptype iso3 lang2 city_name need w = (Ok out, w') →
  ∃ collected attempts,
    loop 4 [] 0%nat ∅ w = (Ok (collected, attempts), w')
    ∧ out = slice_to need collected
    ∧ calls w' = (calls w + attempts)%nat
    ∧ (attempts ≤ 4)%nat
    ∧ (need ≤ Z.of_nat (length collected) ∨ attempts = 4%nat)
    ∧ out = slice_to need (first_occurrences (run (calls w) attempts)).
Proof.
  unfold collect, mbind, M_bind. fold loop.
  destruct (loop 4 [] 0%nat ∅ w) as [[[collected attempts]|e] w1] eqn:Hloop;
    [|discriminate].
  intros [= <- <-]. exists collected, attempts. split; [done|]. split; [done|].
  assert (4 ≤ 4 + 0)%nat as Hfuel by lia.
  destruct (collect_loop_exit _ _ _ _ _ _ _ _ Hfuel Hloop) as (_ & Hmax & Hexit).
  assert (invariant (calls w) [] 0 ∅ w) as Hinv.
  { split; [lia|]. split; [done|]. exists []. done. }
  destruct (collect_loop_invariant _ _ _ _ _ _ _ _ _ Hinv Hloop)
    as (seen' & Hcalls & _ & rest & Hrun & Hrest).
  split; [done|]. split; [lia|]. split; [lia|].
  fold run in Hrun. rewrite Hrun.
  destruct (decide (Z.of_nat (length collected) < need)) as [Hshort|Hfull].
  { by rewrite (Hrest Hshort), app_nil_r. }
  destruct (decide (0 ≤ need)) as [Hpos|Hneg].
  - rewrite !slice_to_nonneg by done. rewrite take_app_le by lia. done.
  - unfold loop in Hloop. rewrite collect_loop_step in Hloop.
    rewrite (proj2 (Z.ltb_ge _ _)) in Hloop by (simpl; lia).
    injection Hloop as <- <- <-. simpl in Hrun. by rewrite <- Hrun.
Qed.

End Accumulation.

(** ** The accumulation loop *)


(** C2, for a target that is not negative.  [collect] returns at most
    [need] records; when it returns fewer, it made four requests and the
    collection was still short of the target after the fourth attempt. *)
Theorem C2_at_most_target_fewer_only_after_four
    (E : env) (model : string) (city : dict)
    (ptype iso3 lang2 city_name : string) (need : Z) (w w' : world)
    (out : list dict) :
  0 ≤ need →
  collect E model city ptype iso3 lang2 city_name need w = (Ok out, w') →
  Z.of_nat (length out) ≤ need
  ∧ ∃ collected attempts,
      collect_loop E model city ptype iso3 lang2 city_name need 4 [] 0%nat ∅ w
        = (Ok (collected, attempts), w')
      ∧ out = take (Z.to_nat need) collected
      ∧ calls w' = (calls w + attempts)%nat
      ∧ (attempts ≤ 4)%nat
      ∧ (Z.of_nat (length out) < need →
           attempts = 4%nat ∧ Z.of_nat (length collected) < need).
Proof.
  intros Hneed Hc.
  destruct (collect_spec _ _ _ _ _ _ _ _ _ _ _ Hc)
    as (collected & attempts & Hloop & Hout & Hcalls & Hmax & Hexit & _).
  rewrite slice_to_nonneg in Hout by done.
  assert (Z.of_nat (length out) ≤ need) as Hle.
  { subst out. rewrite length_take. lia. }
  split; [done|]. exists collected, attempts.
  repeat (split; [done|]).
  intros Hlt. subst out. rewrite length_take in Hlt. lia.
Qed.

(** ** Written rows *)

Lemma py_or_get_default k d :
  py_or (get_default k (VStr "") d) (VStr "") = py_or (get k d) (VStr "").
Proof.
  unfold get. induction d as [|[k' v] d IH]; simpl; [done|].
  by destruct (String.eqb k k').
Qed.

Lemma py_or_str s : py_or (VStr s) (VStr "") = VStr s.
Proof. by destruct s. Qed.

Lemma truthy_py_or_empty v : truthy (py_or v (VStr "")) = truthy v.
Proof. unfold py_or. by destruct (truthy v) eqn:H. Qed.

Lemma valid_csv_row iso3 lang2 city_name ptype item :
  valid_item iso3 lang2 city_name ptype item →
  valid_item iso3 lang2 city_name ptype (csv_row item).
Proof.
  intros ((name & Hname & Hne & Hstrip) & Hch & Hco & Hla & Hci & Hty).
  unfold valid_item.
  change (get "name" (csv_row item))
    with (py_or (get_default "name" (VStr "") item) (VStr "")).
  change (get "email" (csv_row item))
    with (py_or (get_default "email" (VStr "") item) (VStr "")).
  change (get "instagram" (csv_row item))
    with (py_or (get_default "instagram" (VStr "") item) (VStr "")).
  change (get "country" (csv_row item))
    with (py_or (get_default "country" (VStr "") item) (VStr "")).
  change (get "language" (csv_row item))
    with (py_or (get_default "language" (VStr "") item) (VStr "")).
  change (get "city" (csv_row item))
    with (py_or (get_default "city" (VStr "") item) (VStr "")).
  change (get "type" (csv_row item))
    with (py_or (get_default "type" (VStr "") item) (VStr "")).
  rewrite !py_or_get_default, !truthy_py_or_empty, Hname, Hco, Hla, Hci, Hty,
    !py_or_str.
  split; [eauto | done].
Qed.

Lemma only_events_new P w w' : only_events P w w' → Forall P (new_events w w').
Proof.
  intros (evs & H & F). unfold new_events. by rewrite H, drop_app_length.
Qed.

Section Writes.

Context (E : env) (model : string) (city : dict) (per_type : Z) (out_root : string).

Lemma run_pair_writes iso3 lang2 city_id city_name i ptype w :
  only_events (pair_write out_root iso3 lang2 city_name city_id ptype) w
    (run_pair E model city per_type out_root iso3 lang2 city_id city_name
       i ptype w).2.
Proof.
  destruct (pair_path out_root city_id ptype) as [path|e] eqn:Hp.
  2:{ rewrite (run_pair_no_path _ _ _ _ _ _ _ _ _ _ _ e) by done.
      apply only_events_refl. }
  destruct (fs w !! path) as [rows|] eqn:Hex.
  { rewrite (run_pair_skip _ _ _ _ _ _ _ _ _ _ _ path) by (rewrite ?Hex; eauto).
    by apply only_events_emit. }
  set (w0 := (print (LogProcessingType i ptype) w).2).
  assert (only_events (pair_write out_root iso3 lang2 city_name city_id ptype) w w0) as H0
    by (by apply only_events_emit).
  destruct (collect_frame E model city ptype iso3 lang2 city_name per_type w0)
    as [_ Hev].
  assert (only_events (pair_write out_root iso3 lang2 city_name city_id ptype) w0
            (collect E model city ptype iso3 lang2 city_name per_type w0).2) as H1.
  { eapply only_events_impl; [|exact Hev]. by intros ev [-> | ->]. }
  destruct (run_pair_fresh_tail E model city per_type out_root iso3 lang2 city_id
              city_name i ptype path w Hp Hex)
    as [[e ->] | (collected & n & tail & Hc & _ & _ & Htr & Htail & _)].
  { fold w0. simpl. by eapply only_events_trans. }
  fold w0 in Hc, Htr.
  eapply only_events_trans; [exact H0|].
  eapply only_events_trans; [exact H1|].
  eexists. split; [exact Htr|].
  constructor; [|destruct Htail as [-> | ->]; by repeat constructor].
  split; [done|].
  destruct (collect E model city ptype iso3 lang2 city_name per_type w0)
    as [r w1] eqn:Hcol. simpl in Hc. subst r.
  destruct (collect_spec _ _ _ _ _ _ _ _ _ _ _ Hcol)
    as (_ & attempts & _ & _ & _ & _ & _ & ->).
  apply Forall_take, Forall_fmap. destruct (slice_to_take per_type
    (first_occurrences
       (run_candidates E iso3 lang2 city_name ptype (calls w0) attempts)))
    as [m ->].
  apply Forall_take.
  eapply Forall_impl; [|intros item; apply valid_csv_row].
  apply Forall_forall. intros item Hin.
  apply (sublist_subseteq _ _ (unseen_sublist _ _)) in Hin.
  revert item Hin. apply Forall_forall, run_candidates_valid.
Qed.

Lemma run_for_city_writes w :
  only_events (city_write city out_root) w (run_for_city E model city per_type out_root w).2.
Proof.
  unfold run_for_city, mbind at 1, M_bind, lift.
  destruct (city_iso3 city) as [iso3|e] eqn:Hiso; [|apply only_events_refl].
  unfold mbind at 1, M_bind.
  destruct (city_lang2 city) as [lang2|e] eqn:Hlang; [|apply only_events_refl].
  unfold mbind at 1, M_bind.
  destruct (city_display city) as [city_name|e] eqn:Hname; [|apply only_events_refl].
  apply (for_each_invariant (λ w', only_events (city_write city out_root) w w')).
  - intros [i ptype] w' Hin Hev. apply enumerate1_elem in Hin.
    eapply only_events_trans; [exact Hev|].
    eapply only_events_impl; [|apply run_pair_writes].
    intros [| |path rows|]; simpl; try done.
    intros [Hp Hrows]. by exists iso3, lang2, city_name, ptype.
  - apply only_events_refl.
Qed.

End Writes.

(** C3. A file written during the run of a city is the file of one of its
    pairs, and each of its rows has a trimmed, non-empty name, an email or
    an instagram handle that is not empty, and the country, language, city
    and type that the run derived for that pair: the ISO-3 code and the
    language code of the city, its display name and the partner type. *)
Theorem C3_written_rows_are_valid
    (E : env) (model : string) (city : dict) (per_type : Z) (out_root : string)
    (w : world) (path : string) (rows : list dict) :
  EvWrite path rows
    ∈ new_events w (run_for_city E model city per_type out_root w).2 →
  ∃ iso3 lang2 city_name ptype,
    city_iso3 city = Ok iso3
    ∧ city_lang2 city = Ok lang2
    ∧ city_display city = Ok city_name
    ∧ ptype ∈ PARTNER_TYPES
    ∧ pair_path out_root (get "id" city) ptype = Ok path
    ∧ Forall (valid_item iso3 lang2 city_name ptype) rows.
Proof.
  intros Hin.
  pose proof (only_events_new _ _ _ (run_for_city_writes E model city per_type
                                       out_root w)) as Hall.
  rewrite Forall_forall in Hall. exact (Hall _ Hin).
Qed.

(** ** The loop over cities *)

(** One turn for a city that is a dict: the exception of its run, if any,
    ends in a warning with the id of the city, and the turn returns. *)
Lemma process_city_dict E a n i d w :
  process_city E a n (i, VDict d) w =
    match run_for_city E (arg_model a) d (arg_per_type a) (arg_out a)
            (print (LogProcessingCity i n (city_label d)) w).2 with
    | (Ok _, w') => (Ok (), w')
    | (Raise e, w') => print_err (LogWarn (city_label d) e) w'
    end.
Proof.
  unfold process_city, try_except, mbind at 1, M_bind, lift. simpl.
  unfold mbind at 1, M_bind. simpl.
  destruct (run_for_city _ _ _ _ _ _) as [[[]|e] w']; [done|].
  by unfold mbind, M_bind, lift.
Qed.

(** A city that is not a dict has no [.get]: the body raises, and so does
    the handler. *)
Lemma process_city_not_dict E a n i city w :
  is_dict city = false →
  process_city E a n (i, city) w = (Raise AttributeError, w).
Proof. by destruct city. Qed.

Lemma process_city_grows E a n i d w :
  ∃ evs,
    (process_city E a n (i, VDict d) w).1 = Ok ()
    ∧ trace (process_city E a n (i, VDict d) w).2
      = trace w ++ EvPrint false (LogProcessingCity i n (city_label d)) :: evs.
Proof.
  rewrite process_city_dict.
  set (w0 := (print (LogProcessingCity i n (city_label d)) w).2).
  destruct (run_for_city_writes E (arg_model a) d (arg_per_type a) (arg_out a) w0)
    as (evs & Htr & _).
  destruct (run_for_city _ _ _ _ _ _) as [[[]|e] w']; simpl in *.
  - exists evs. split; [done|]. by rewrite Htr, <- app_assoc.
  - exists (evs ++ [EvPrint true (LogWarn (city_label d) e)]). split; [done|].
    by rewrite Htr, <- !app_assoc.
Qed.

Lemma for_each_cons {A} (x : A) l (body : A → M ()) w :
  for_each (x :: l) body w =
    match body x w with
    | (Ok _, w') => for_each l body w'
    | (Raise e, w') => (Raise e, w')
    end.
Proof. reflexivity. Qed.


Lemma for_each_cities_started E a n (ds : list (nat * dict)) w :
  let l := (λ id : nat * dict, (id.1, VDict id.2)) <$> ds in
  (for_each l (process_city E a n) w).1 = Ok ()
  ∧ ∃ evs, trace (for_each l (process_city E a n) w).2 = trace w ++ evs
      ∧ ∀ i d, (i, d) ∈ ds → EvPrint false (LogProcessingCity i n (city_label d)) ∈ evs.
Proof.
  revert w. induction ds as [|[i d] ds IH]; intros w.
  { split; [done|]. exists []. split; [by rewrite app_nil_r|].
    by intros ?? ?%elem_of_nil. }
  cbv zeta. rewrite fmap_cons, for_each_cons. cbn [fst snd].
  destruct (process_city_grows E a n i d w) as (evs & Hok & Htr).
  destruct (process_city E a n (i, VDict d) w) as [[[]|e] w'] eqn:Hp; [|done].
  simpl in Htr. destruct (IH w') as (Hok' & evs' & Htr' & Hall).
  split; [done|].
  exists (EvPrint false (LogProcessingCity i n (city_label d)) :: evs ++ evs').
  split.
  { rewrite Htr', Htr, <- app_assoc. done. }
  intros i' d' [[= -> ->] | Hin]%elem_of_cons.
  - apply elem_of_cons. auto.
  - apply elem_of_cons. right. apply elem_of_app. right. by apply Hall.
Qed.

(** A failure of the service in the first attempt of a pair leaves the
    loop, and the turn of the pair, as it is. *)
Lemma collect_raises E model city ptype iso3 lang2 city_name need w e :
  0 < need →
  create_completion E (calls w) = Raise e →
  collect E model city ptype iso3 lang2 city_name need w
  = (Raise e, requested model (build_user_prompt city ptype iso3 lang2) false w).
Proof.
  intros Hneed He. unfold collect, mbind, M_bind.
  rewrite collect_loop_step.
  rewrite (proj2 (Z.ltb_lt _ _)) by (simpl; lia). simpl.
  unfold attempt_rows. by rewrite He.
Qed.

(** A city whose first pair has no file yet, and whose first request the
    service fails: the run of the city ends with that exception. *)
Lemma run_for_city_service_failure E model d per_type out_root
    iso3 lang2 city_name path w e :
  city_iso3 d = Ok iso3 →
  city_lang2 d = Ok lang2 →
  city_display d = Ok city_name →
  pair_path out_root (get "id" d) "influencer" = Ok path →
  fs w !! path = None →
  0 < per_type →
  create_completion E (calls w) = Raise e →
  run_for_city E model d per_type out_root w
  = (Raise e,
     {| fs := fs w; calls := S (calls w);
        trace := trace w
                 ++ [EvPrint false (LogProcessingType 1 "influencer");
                     EvRequest model (build_user_prompt d "influencer" iso3 lang2)] |}).
Proof.
  intros Hiso Hlang Hname Hpath Hfile Hneed He.
  unfold run_for_city, mbind at 1, M_bind, lift. rewrite Hiso.
  unfold mbind at 1, M_bind. rewrite Hlang.
  unfold mbind at 1, M_bind. rewrite Hname.
  change (enumerate1 PARTNER_TYPES)
    with ((1%nat, "influencer") :: zip (seq 2 5) (tail PARTNER_TYPES)).
  rewrite for_each_cons.
  rewrite (run_pair_fresh _ _ _ _ _ _ _ _ _ _ _ path) by done.
  rewrite (collect_raises _ _ _ _ _ _ _ _
             (print (LogProcessingType 1 "influencer") w).2 e Hneed He).
  unfold requested. simpl. by rewrite <- app_assoc.
Qed.

(** C9. A city is a dict.  Whatever its run raises is caught by the turn
    of that city, which prints a warning with the id of the city and
    returns, so the loop goes on with the next city; over any list of
    cities the loop returns and every city has its turn.  In particular
    an exception of the service in an attempt leaves [collect] and the run
    of the city and ends up in that warning. *)
Theorem C9_city_failure_does_not_stop_the_batch (E : env) (a : args) :
  (∀ n i d rest w,
     let started := (print (LogProcessingCity i n (city_label d)) w).2 in
     let run :=
       run_for_city E (arg_model a) d (arg_per_type a) (arg_out a) started in
     let after :=
       match run.1 with
       | Ok _ => run.2
       | Raise e => (print_err (LogWarn (city_label d) e) run.2).2
       end in
     process_city E a n (i, VDict d) w = (Ok (), after)
     ∧ for_each ((i, VDict d) :: rest) (process_city E a n) w
       = for_each rest (process_city E a n) after)
  ∧ (∀ (ds : list dict) w,
       let cities := VDict <$> ds in
       let loop := for_each (enumerate1 cities) (process_city E a (length cities)) in
       (loop w).1 = Ok ()
       ∧ ∀ i d, enumerate1 ds !! i = Some d →
           EvPrint false (LogProcessingCity d.1 (length cities) (city_label d.2))
             ∈ new_events w (loop w).2)
  ∧ (∀ n i d iso3 lang2 city_name path w e,
       city_iso3 d = Ok iso3 →
       city_lang2 d = Ok lang2 →
       city_display d = Ok city_name →
       pair_path (arg_out a) (get "id" d) "influencer" = Ok path →
       fs w !! path = None →
       0 < arg_per_type a →
       create_completion E (calls w) = Raise e →
       process_city E a n (i, VDict d) w
       = (Ok (),
          {| fs := fs w; calls := S (calls w);
             trace := trace w
               ++ [EvPrint false (LogProcessingCity i n (city_label d));
                   EvPrint false (LogProcessingType 1 "influencer");
                   EvRequest (arg_model a)
                     (build_user_prompt d "influencer" iso3 lang2);
                   EvPrint true (LogWarn (city_label d) e)] |})).
Proof.
  split; [|split].
  - intros n i d rest w started run after.
    assert (process_city E a n (i, VDict d) w = (Ok (), after)) as Hp.
    { rewrite process_city_dict. unfold after, run, started.
      by destruct (run_for_city _ _ _ _ _ _) as [[[]|e] w']. }
    split; [done|]. by rewrite for_each_cons, Hp.
  - intros ds w cities loop.
    assert (enumerate1 cities
            = (λ id : nat * dict, (id.1, VDict id.2)) <$> enumerate1 ds) as Hen.
    { unfold enumerate1, cities. rewrite length_fmap.
      generalize (seq 1 (length ds)). induction ds as [|d ds IH]; intros [|k ks];
        simpl; try done. by rewrite IH. }
    unfold loop. rewrite Hen.
    destruct (for_each_cities_started E a (length cities) (enumerate1 ds) w)
      as (Hok & evs & Htr & Hall).
    split; [done|]. intros i [k d] Hi.
    unfold new_events. rewrite Htr, drop_app_length.
    apply Hall. by eapply list_elem_of_lookup_2.
  - intros n i d iso3 lang2 city_name path w e Hiso Hlang Hname Hpath Hfile Hneed He.
    rewrite process_city_dict.
    rewrite (run_for_city_service_failure _ _ _ _ _ iso3 lang2 city_name path _ e)
      by done.
    unfold print_err, emit. simpl. by rewrite <- !app_assoc.
Qed.

(** ** The merge pass *)

Lemma reader_get k fields :
  get k (reader_row fields) = VNone ∨ ∃ s, get k (reader_row fields) = VStr s.
Proof.
  unfold get. induction fields as [|[k' [v|]] fields IH]; simpl; [by left|..];
    destruct (String.eqb k k'); eauto.
Qed.

Lemma lower_strip_reader k fields :
  ∃ s, lower_strip (get k (reader_row fields)) = Ok s.
Proof.
  destruct (reader_get k fields) as [-> | [s ->]]; [by eexists|].
  unfold lower_strip, py_or. simpl. destruct (Str.is_empty s); simpl; by eexists.
Qed.

Lemma merge_key_reader fields : ∃ key, merge_key (reader_row fields) = Ok key.
Proof.
  unfold merge_key.
  destruct (lower_strip_reader "email" fields) as [e ->].
  destruct (lower_strip_reader "instagram" fields) as [i ->].
  simpl. by eexists.
Qed.

(** Rows read from disk never fail the key computation. *)
Lemma merge_rows_reader rows seen all :
  (merge_rows (reader_row <$> rows) seen all).2 = None.
Proof.
  revert seen all. induction rows as [|r rows IH]; intros seen all; [done|].
  rewrite fmap_cons. simpl.
  destruct (merge_key_reader r) as [key ->].
  destruct (_ && _); apply IH.
Qed.

Lemma merge_rows_app l1 l2 seen all :
  (merge_rows l1 seen all).2 = None →
  merge_rows (l1 ++ l2) seen all
  = merge_rows l2 (merge_rows l1 seen all).1.1 (merge_rows l1 seen all).1.2.
Proof.
  revert seen all. induction l1 as [|r l1 IH]; intros seen all; simpl; [done|].
  destruct (merge_key r) as [key|e]; [|done].
  destruct (_ && _); apply IH.
Qed.

Lemma merge_file_spec E path seen all w :
  merge_file E path (seen, all) w
  = (Ok (merge_rows (reader_row <$> (read_rows E path).1) seen all).1,
     {| fs := fs w; calls := calls w; trace := trace w ++ [file_log E path] |}).
Proof.
  unfold merge_file, file_log.
  pose proof (merge_rows_reader (read_rows E path).1 seen all) as Hnone.
  destruct (read_rows E path) as [rows err]. simpl in *.
  destruct (merge_rows (reader_row <$> rows) seen all) as [st' key_error].
  simpl in Hnone. subst key_error.
  by destruct err.
Qed.

Lemma merge_walk_spec E dirs seen all w :
  merge_walk E dirs (seen, all) w
  = (Ok (merge_rows (yielded_rows E (discovered dirs)) seen all).1,
     {| fs := fs w; calls := calls w;
        trace := trace w ++ (file_log E <$> discovered dirs) |}).
Proof.
  revert seen all w. induction dirs as [|[root files] dirs IH]; intros seen all w.
  { simpl. unfold mret, M_ret. rewrite app_nil_r. by destruct w. }
  simpl. unfold discovered. rewrite filter_cons. simpl.
  destruct (decide ("contacts.csv" ∈ files)) as [Hin|Hout].
  - rewrite bool_decide_eq_true_2 by done.
    unfold mbind, M_bind. rewrite merge_file_spec.
    destruct (merge_rows _ seen all) as [[seen1 all1] err1] eqn:Hm. simpl.
    fold (discovered dirs). rewrite IH. simpl.
    unfold yielded_rows. simpl. rewrite fmap_app.
    rewrite merge_rows_app by (rewrite Hm; pose proof (merge_rows_reader
      (read_rows E (path_join root "contacts.csv")).1 seen all) as H;
      by rewrite Hm in H).
    rewrite Hm. simpl. by rewrite <- app_assoc.
  - rewrite bool_decide_eq_false_2 by done. fold (discovered dirs). apply IH.
Qed.

(** What the merge pass does, as one equation. *)
Lemma merge_csvs_spec (E : env) (out_root merge_output : string) (w : world) :
  let all_contacts := merged_contacts E out_root in
  let w1 := scanned E out_root w in
  merge_csvs E out_root merge_output w
  = match all_contacts with
    | [] =>
        (Ok (), {| fs := fs w; calls := calls w;
                   trace := trace w1 ++ [EvPrint false LogNothingToMerge] |})
    | _ =>
        match open_for_write E merge_output with
        | Ok _ =>
            (Ok (),
             {| fs := <[merge_output := csv_row <$> all_contacts]> (fs w);
                calls := calls w;
                trace := trace w1
                  ++ [EvWrite merge_output (csv_row <$> all_contacts);
                      EvPrint false (LogMerged (length all_contacts) merge_output)] |})
        | Raise e => (Raise e, w1)
        end
    end.
Proof.
  intros all_contacts w1. unfold merge_csvs, mbind at 1, M_bind. simpl.
  unfold mbind at 1, M_bind. rewrite merge_walk_spec.
  unfold all_contacts, w1, merged_contacts, scanned.
  destruct (merge_rows _ ∅ []) as [[seen all] err]. simpl.
  destruct all as [|c all]; simpl.
  - unfold print, emit. simpl. by rewrite <- !app_assoc.
  - unfold mbind, M_bind, write_file, print, emit. simpl.
    destruct (open_for_write E merge_output) as [[]|e]; simpl;
      by rewrite <- ?app_assoc.
Qed.

(** C8, with the rows read before the error kept.  The merge pass prints
    one line per discovered file, in order, "processed" or the error that
    ended the reading of that file, and no such error ends the pass: every
    discovered file is read.  The contacts kept are the first occurrences,
    by key, among the rows that all the files yielded, each file up to its
    error.  When none is kept, nothing is written and the disk is as it
    was; otherwise the merged file, once created, holds these contacts. *)
Theorem C8_merge_logs_read_errors_and_goes_on
    (E : env) (out_root merge_output : string) (w : world) :
  let paths := discovered (walk E out_root) in
  let all_contacts := (merge_rows (yielded_rows E paths) ∅ []).1.2 in
  let r := merge_csvs E out_root merge_output w in
  (∃ rest,
     new_events w r.2
     = EvPrint false (LogScanning out_root) :: (file_log E <$> paths) ++ rest)
  ∧ (∀ path e,
       path ∈ paths → (read_rows E path).2 = Some e →
       EvPrint true (LogReadError path e) ∈ new_events w r.2)
  ∧ (all_contacts = [] →
       r.1 = Ok () ∧ fs r.2 = fs w
       ∧ ∀ path rows, EvWrite path rows ∉ new_events w r.2)
  ∧ (all_contacts ≠ [] →
       r.1 = open_for_write E merge_output
       ∧ (r.1 = Ok () →
          fs r.2 = <[merge_output := csv_row <$> all_contacts]> (fs w))).
Proof.
  intros paths all_contacts r.
  pose proof (merge_csvs_spec E out_root merge_output w) as Hspec.
  cbv zeta in Hspec. fold r in Hspec.
  change (merged_contacts E out_root) with all_contacts in Hspec.
  assert (∃ rest,
            new_events w r.2
            = EvPrint false (LogScanning out_root) :: (file_log E <$> paths) ++ rest)
    as [rest Hev].
  { unfold new_events. rewrite Hspec.
    destruct all_contacts; [|destruct (open_for_write E merge_output) as [[]|e]];
      simpl; rewrite <- ?app_assoc, drop_app_length; simpl; eauto.
    exists []. by rewrite app_nil_r. }
  split; [eauto|]. split; [|split].
  - intros path e Hin He. rewrite Hev.
    apply elem_of_cons. right. apply elem_of_app. left.
    apply list_elem_of_fmap. exists path. split; [|done].
    unfold file_log. by rewrite He.
  - intros Hnil. rewrite Hnil in Hspec. rewrite Hspec. simpl.
    split; [done|]. split; [done|]. intros path rows.
    unfold new_events. simpl. rewrite <- app_assoc, drop_app_length. simpl.
    intros [|[(p & Hp & _)%list_elem_of_fmap|[|?%elem_of_nil]%elem_of_cons]%elem_of_app]%elem_of_cons;
      try done.
    unfold file_log in Hp. by destruct (read_rows E p).2.
  - intros Hne. destruct all_contacts as [|c l]; [done|].
    rewrite Hspec. by destruct (open_for_write E merge_output) as [[]|e].
Qed.

(** ** The exit status *)









(** * Sample runs *)

Lemma sample_collect_eq : sample_collect = (Ok sample_out, sample_after).
Proof. vm_compute. reflexivity. Qed.

(** The sample run of [collect]: target 2, reached in one attempt. *)
Lemma C2_sample_run :
  0 ≤ 2
  ∧ sample_collect = (Ok sample_out, sample_after)
  ∧ Z.of_nat (length sample_out) ≤ 2.
Proof.
  assert (0 ≤ 2) as H0 by lia.
  split; [exact H0|]. split; [exact sample_collect_eq|].
  exact (proj1 (C2_at_most_target_fewer_only_after_four sample_env "gpt-4o" paris
                  "ngo" "FRA" "fr" "Paris" 2 empty_world sample_after sample_out
                  H0 sample_collect_eq)).
Defined.

(** A target below zero: the loop does not run and the empty result has
    more records than the target. *)
Lemma C2_negative_target :
  ¬ (∀ (E : env) (model : string) (city : dict)
       (ptype iso3 lang2 city_name : string) (need : Z) (w w' : world)
       (out : list dict),
       collect E model city ptype iso3 lang2 city_name need w = (Ok out, w') →
       Z.of_nat (length out) ≤ need).
Proof.
  intros H.
  specialize (H failing_env "gpt-4o" paris "ngo" "FRA" "fr" "Paris" (-1)
                empty_world empty_world [] eq_refl).
  simpl in H. lia.
Qed.


Lemma sample_city_run_write :
  new_events empty_world sample_city_run.2 !! 3%nat
  = Some (EvWrite "out/paris_france/influencer/contacts.csv" sample_written).
Proof. vm_compute. reflexivity. Qed.

(** The first file written for Paris. *)
Lemma C3_sample_run :
  EvWrite "out/paris_france/influencer/contacts.csv" sample_written
    ∈ new_events empty_world sample_city_run.2
  ∧ ∃ iso3 lang2 city_name ptype,
      city_iso3 paris = Ok iso3
      ∧ city_lang2 paris = Ok lang2
      ∧ city_display paris = Ok city_name
      ∧ ptype ∈ PARTNER_TYPES
      ∧ pair_path "out" (get "id" paris) ptype
        = Ok "out/paris_france/influencer/contacts.csv"
      ∧ Forall (valid_item iso3 lang2 city_name ptype) sample_written.
Proof.
  assert (EvWrite "out/paris_france/influencer/contacts.csv" sample_written
            ∈ new_events empty_world sample_city_run.2) as Hin.
  { eapply list_elem_of_lookup_2. exact sample_city_run_write. }
  split; [exact Hin|].
  exact (C3_written_rows_are_valid sample_env "gpt-4o" paris 2 "out" empty_world
           _ _ Hin).
Defined.

(** Paris with the ngo file on disk, empty as it is. *)
Lemma C5_sample_run :
  "ngo" ∈ PARTNER_TYPES
  ∧ pair_path "out" (get "id" paris) "ngo" = Ok "out/paris_france/ngo/contacts.csv"
  ∧ is_Some (fs resumed_world !! "out/paris_france/ngo/contacts.csv")
  ∧ fs (run_for_city sample_env "gpt-4o" paris 2 "out" resumed_world).2
      !! "out/paris_france/ngo/contacts.csv"
    = fs resumed_world !! "out/paris_france/ngo/contacts.csv".
Proof.
  assert ("ngo" ∈ PARTNER_TYPES) as Ht.
  { apply list_elem_of_In. simpl. tauto. }
  assert (pair_path "out" (get "id" paris) "ngo"
          = Ok "out/paris_france/ngo/contacts.csv") as Hp
    by (vm_compute; reflexivity).
  assert (is_Some (fs resumed_world !! "out/paris_france/ngo/contacts.csv")) as Hex
    by (exists []; vm_compute; reflexivity).
  split; [exact Ht|]. split; [exact Hp|]. split; [exact Hex|].
  exact (proj1 (proj2 (C5_existing_file_is_skipped sample_env "gpt-4o" paris 2
                         "out" "ngo" _ resumed_world Ht Hp Hex))).
Defined.



(** A file that yields one row and then fails: the row is in the merged
    file, which would not even be written were the file skipped. *)
Lemma C8_rows_before_the_error_are_kept :
  ¬ (∀ (E : env) (out_root merge_output : string) (w : world),
       merge_csvs E out_root merge_output w
       = merge_csvs (skipping_failed_files E) out_root merge_output w).
Proof.
  intros H.
  specialize (H partial_read_env "out" "merged_contacts.csv" empty_world).
  apply (f_equal (λ r, length (trace r.2))) in H.
  vm_compute in H. discriminate H.
Qed.

(** The file whose reading fails after one row: the error is printed. *)
Lemma C8_sample_run :
  "out/paris_france/ngo/contacts.csv" ∈ discovered (walk partial_read_env "out")
  ∧ (read_rows partial_read_env "out/paris_france/ngo/contacts.csv").2
    = Some (ValueError "invalid start byte")
  ∧ EvPrint true
      (LogReadError "out/paris_france/ngo/contacts.csv"
         (ValueError "invalid start byte"))
    ∈ new_events empty_world
        (merge_csvs partial_read_env "out" "merged_contacts.csv" empty_world).2.
Proof.
  assert ("out/paris_france/ngo/contacts.csv"
            ∈ discovered (walk partial_read_env "out")) as Hin.
  { apply list_elem_of_In. vm_compute. tauto. }
  split; [exact Hin|]. split; [reflexivity|].
  exact (proj1 (proj2 (C8_merge_logs_read_errors_and_goes_on partial_read_env
                         "out" "merged_contacts.csv" empty_world))
           _ _ Hin eq_refl).
Defined.

(** Paris, no file yet, the first request refused. *)
Lemma C9_sample_run :
  city_iso3 paris = Ok "FRA"
  ∧ city_lang2 paris = Ok "fr"
  ∧ city_display paris = Ok "Paris"
  ∧ pair_path (arg_out sample_args) (get "id" paris) "influencer"
    = Ok "out/paris_france/influencer/contacts.csv"
  ∧ fs empty_world !! "out/paris_france/influencer/contacts.csv" = None
  ∧ 0 < arg_per_type sample_args
  ∧ create_completion failing_env (calls empty_world)
    = Raise (ServiceError "connection refused")
  ∧ (process_city failing_env sample_args 1 (1%nat, VDict paris) empty_world).1
    = Ok ().
Proof.
  assert (city_iso3 paris = Ok "FRA") as H1 by (vm_compute; reflexivity).
  assert (city_lang2 paris = Ok "fr") as H2 by (vm_compute; reflexivity).
  assert (city_display paris = Ok "Paris") as H3 by (vm_compute; reflexivity).
  assert (pair_path (arg_out sample_args) (get "id" paris) "influencer"
          = Ok "out/paris_france/influencer/contacts.csv") as H4
    by (vm_compute; reflexivity).
  assert (fs empty_world !! "out/paris_france/influencer/contacts.csv" = None) as H5
    by (vm_compute; reflexivity).
  assert (0 < arg_per_type sample_args) as H6 by (simpl; lia).
  assert (create_completion failing_env (calls empty_world)
          = Raise (ServiceError "connection refused")) as H7 by reflexivity.
  repeat (split; [assumption|]).
  rewrite (proj2 (proj2 (C9_city_failure_does_not_stop_the_batch failing_env
                           sample_args))
             1%nat 1%nat paris "FRA" "fr" "Paris" _ empty_world _
             H1 H2 H3 H4 H5 H6 H7).
  reflexivity.
Defined.

(** A cities array that holds the id of a city where an object is
    expected: the turn of that entry raises in its handler too, and the
    loop ends before the next city. *)
Lemma C9_entry_that_is_not_an_object :
  ¬ (∀ (E : env) (a : args) (cities : list value) (w : world),
       (for_each (enumerate1 cities) (process_city E a (length cities)) w).1
       = Ok ()).
Proof.
  intros H.
  specialize (H sample_env sample_args [VStr "paris_france"; VDict paris] empty_world).
  vm_compute in H. discriminate H.
Qed.

(** * Further properties of the code *)

(** ** Normaliser *)

Lemma allowed_not_space_b c : allowed_in_path c && Str.is_space c = false.
Proof. by destruct c as [[] [] [] [] [] [] [] []]. Qed.

Lemma allowed_not_space c : allowed_in_path c = true → Str.is_space c = false.
Proof. intros H. pose proof (allowed_not_space_b c) as Hb. by rewrite H in Hb. Qed.

Lemma allowed_not_slash c : allowed_in_path c = true → Ascii.eqb "/" c = false.
Proof. destruct c as [[] [] [] [] [] [] [] []]; by vm_compute. Qed.

Lemma sub_runs_allowed in_run s : str_forall allowed_in_path (sub_runs in_run s) = true.
Proof.
  revert in_run. induction s as [|c s IH]; intros in_run; simpl; [done|].
  destruct (allowed_in_path c) eqn:Hc; simpl.
  - by rewrite Hc, IH.
  - destruct in_run; simpl; by rewrite ?IH.
Qed.

Lemma sub_runs_fixed s :
  str_forall allowed_in_path s = true → sub_runs false s = s.
Proof.
  induction s as [|c s IH]; simpl; [done|].
  intros [Hc Hs]%andb_true_iff. by rewrite Hc, IH.
Qed.

Lemma rstrip_fixed s : str_forall (λ c, negb (Str.is_space c)) s = true → Str.rstrip s = s.
Proof.
  induction s as [|c s IH]; [done|]. simpl str_forall.
  intros [Hc Hs]%andb_true_iff. apply negb_true_iff in Hc.
  by rewrite rstrip_cons, Hc, andb_false_r, IH.
Qed.

Lemma strip_fixed s : str_forall (λ c, negb (Str.is_space c)) s = true → Str.strip s = s.
Proof.
  intros H. unfold Str.strip.
  assert (Str.lstrip s = s) as ->; [|by apply rstrip_fixed].
  destruct s as [|c s]; [done|]. simpl in *.
  apply andb_true_iff in H as [Hc _]. apply negb_true_iff in Hc. by rewrite Hc.
Qed.

Lemma str_forall_impl (P Q : ascii → bool) s :
  (∀ c, P c = true → Q c = true) → str_forall P s = true → str_forall Q s = true.
Proof.
  intros HPQ. induction s as [|c s IH]; simpl; [done|].
  intros [Hc Hs]%andb_true_iff. by rewrite (HPQ _ Hc), IH.
Qed.

Lemma no_slash s :
  str_forall allowed_in_path s = true → Str.contains_char "/" s = false.
Proof.
  induction s as [|c s IH]; [done|].
  change (Str.contains_char "/" (String c s))
    with (Ascii.eqb "/" c || Str.contains_char "/" s).
  simpl str_forall.
  intros [Hc Hs]%andb_true_iff. by rewrite (allowed_not_slash _ Hc), IH.
Qed.

(** X1. [sanitize] returns only letters, digits, dots, underscores and
    hyphens, so never a path separator, and it leaves its own results as
    they are. *)
Theorem X1_sanitize_is_safe_and_idempotent (s : string) :
  str_forall allowed_in_path (sanitize s) = true
  ∧ Str.contains_char "/" (sanitize s) = false
  ∧ sanitize (sanitize s) = sanitize s.
Proof.
  assert (str_forall allowed_in_path (sanitize s) = true) as H
    by apply sub_runs_allowed.
  split; [done|]. split; [by apply no_slash|].
  unfold sanitize at 1. rewrite strip_fixed.
  - by apply sub_runs_fixed.
  - eapply str_forall_impl; [|exact H].
    intros c Hc. by rewrite (allowed_not_space _ Hc).
Qed.

Lemma take_length n s : (String.length (Str.take n s) ≤ n)%nat.
Proof.
  revert s. induction n as [|n IH]; intros [|c s]; simpl; try lia.
  specialize (IH s). lia.
Qed.

Lemma table_values (items : list (string * string)) (n : nat) k v :
  (list_to_map items : gmap string string) !! k = Some v →
  Forall (λ kv, String.length kv.2 = n) items →
  String.length v = n.
Proof.
  intros Hk Hall. apply elem_of_list_to_map_2 in Hk.
  rewrite Forall_forall in Hall. exact (Hall _ Hk).
Qed.

(** X2. The country code has at most three characters and the language
    code at most two, whatever the slug or code given. *)
Theorem X2_codes_are_short (s : string) :
  (String.length (to_iso3 s) ≤ 3)%nat ∧ (String.length (to_lang2 s) ≤ 2)%nat.
Proof.
  split.
  - unfold to_iso3. destruct (ISO3 !! Str.lower s) as [v|] eqn:Hv.
    + simpl. rewrite (table_values ISO3_items 3 _ _ Hv) by repeat constructor.
      lia.
    + exact (take_length 3 (Str.upper s)).
  - unfold to_lang2. destruct (LANG_MAP !! Str.lower s) as [v|] eqn:Hv.
    + unfold LANG_MAP in Hv. simpl.
      rewrite (table_values _ 2 _ _ Hv) by repeat constructor. lia.
    + exact (take_length 2 (Str.lower s)).
Qed.

Lemma lower_char_idemp c : Str.lower_char (Str.lower_char c) = Str.lower_char c.
Proof. by destruct c as [[] [] [] [] [] [] [] []]. Qed.

Lemma lower_upper_char c : Str.lower_char (Str.upper_char c) = Str.lower_char c.
Proof. by destruct c as [[] [] [] [] [] [] [] []]. Qed.

Lemma upper_char_idemp c : Str.upper_char (Str.upper_char c) = Str.upper_char c.
Proof. by destruct c as [[] [] [] [] [] [] [] []]. Qed.

Lemma upper_lower_char c :
  is_ascii_char c = true → Str.upper_char (Str.lower_char c) = Str.upper_char c.
Proof. destruct c as [[] [] [] [] [] [] [] []]; by vm_compute. Qed.

Lemma map_map_ext (f g h : ascii → ascii) (P : ascii → bool) s :
  (∀ c, P c = true → f (g c) = h c) →
  str_forall P s = true → Str.map f (Str.map g s) = Str.map h s.
Proof.
  intros Hfg. induction s as [|c s IH]; simpl; [done|].
  intros [Hc Hs]%andb_true_iff. by rewrite (Hfg _ Hc), IH.
Qed.

Lemma str_forall_true s : str_forall (λ _, true) s = true.
Proof. by induction s. Qed.

(** X3. The codes do not depend on the case of what is given: a code and
    its lower-cased form have the same language code, and for ASCII text a
    slug, its lower-cased and its upper-cased form have the same country
    code and language code. *)
Theorem X3_codes_ignore_case (s : string) :
  to_lang2 (Str.lower s) = to_lang2 s
  ∧ (str_forall is_ascii_char s = true →
     to_iso3 (Str.lower s) = to_iso3 s
     ∧ to_iso3 (Str.upper s) = to_iso3 s
     ∧ to_lang2 (Str.upper s) = to_lang2 s).
Proof.
  assert (Str.lower (Str.lower s) = Str.lower s) as Hll.
  { apply (map_map_ext _ _ _ (λ _, true)); [|apply str_forall_true].
    intros c _. apply lower_char_idemp. }
  assert (Str.lower (Str.upper s) = Str.lower s) as Hlu.
  { apply (map_map_ext _ _ _ (λ _, true)); [|apply str_forall_true].
    intros c _. apply lower_upper_char. }
  assert (Str.upper (Str.upper s) = Str.upper s) as Huu.
  { apply (map_map_ext _ _ _ (λ _, true)); [|apply str_forall_true].
    intros c _. apply upper_char_idemp. }
  split; [unfold to_lang2; by rewrite Hll|].
  intros Hascii.
  assert (Str.upper (Str.lower s) = Str.upper s) as Hul.
  { apply (map_map_ext _ _ _ is_ascii_char); [|done].
    intros c Hc. by apply upper_lower_char. }
  unfold to_iso3, to_lang2. by rewrite Hll, Hlu, Huu, Hul.
Qed.

(** A slug in mixed case. *)
Lemma X3_sample :
  str_forall is_ascii_char "South_Africa" = true
  ∧ to_iso3 (Str.lower "South_Africa") = to_iso3 "South_Africa".
Proof.
  assert (str_forall is_ascii_char "South_Africa" = true) as H by reflexivity.
  split; [exact H|].
  exact (proj1 (proj2 (X3_codes_ignore_case "South_Africa") H)).
Defined.

(** ** City ids *)

Lemma contains_char_cons c d s :
  Str.contains_char c (String d s) = Ascii.eqb c d || Str.contains_char c s.
Proof. reflexivity. Qed.

Lemma split_cons sep c s :
  Str.split sep (String c s) =
    if Ascii.eqb c sep then EmptyString :: Str.split sep s
    else match Str.split sep s with
         | h :: t => String c h :: t
         | [] => [String c EmptyString]
         end.
Proof. reflexivity. Qed.

Lemma split_not_nil sep s : Str.split sep s ≠ [].
Proof.
  induction s as [|c s IH]; [done|]. rewrite split_cons.
  destruct (Ascii.eqb c sep); [done|]. by destruct (Str.split sep s).
Qed.

Lemma split_without sep s :
  Str.contains_char sep s = false → Str.split sep s = [s].
Proof.
  induction s as [|c s IH]; [done|]. rewrite contains_char_cons, split_cons.
  intros [Hc Hs]%orb_false_iff. rewrite Ascii.eqb_sym, Hc. by rewrite IH.
Qed.

Lemma split_first sep a b :
  Str.contains_char sep a = false →
  Str.split sep (a +:+ String sep b) = a :: Str.split sep b.
Proof.
  induction a as [|c a IH].
  - intros _. change ("" +:+ String sep b) with (String sep b).
    by rewrite split_cons, Ascii.eqb_refl.
  - rewrite contains_char_cons, append_cons, split_cons.
    intros [Hc Ha]%orb_false_iff. rewrite Ascii.eqb_sym, Hc. by rewrite IH.
Qed.

Lemma contains_char_middle sep a b :
  Str.contains_char sep (a +:+ String sep b) = true.
Proof.
  induction a as [|c a IH].
  - change ("" +:+ String sep b) with (String sep b).
    by rewrite contains_char_cons, Ascii.eqb_refl.
  - by rewrite append_cons, contains_char_cons, IH, orb_true_r.
Qed.

(** A string with a separator, cut at the first one. *)
Lemma cut_at_first sep s :
  Str.contains_char sep s = true →
  ∃ a b, s = a +:+ String sep b ∧ Str.contains_char sep a = false.
Proof.
  induction s as [|c s IH]; [done|]. rewrite contains_char_cons.
  destruct (Ascii.eqb sep c) eqn:Hc; simpl.
  - intros _. apply Ascii.eqb_eq in Hc as <-. by exists EmptyString, s.
  - intros (a & b & -> & Ha)%IH. exists (String c a), b.
    split; [done|]. by rewrite contains_char_cons, Hc, Ha.
Qed.

Lemma join_cons_cons sep c h t :
  Str.join sep (String c h :: t) = String c (Str.join sep (h :: t)).
Proof. unfold Str.join. simpl. by destruct t. Qed.

Lemma join_split s : Str.join "_" (Str.split "_" s) = s.
Proof.
  induction s as [|c s IH]; [done|]. rewrite split_cons.
  destruct (Ascii.eqb c "_") eqn:Hc.
  - apply Ascii.eqb_eq in Hc as ->. pose proof (split_not_nil "_" s) as Hne.
    unfold Str.join in *. simpl. destruct (Str.split "_" s); [done|].
    by rewrite IH.
  - pose proof (split_not_nil "_" s) as Hne.
    destruct (Str.split "_" s) as [|h t]; [done|].
    by rewrite join_cons_cons, IH.
Qed.

Lemma city_display_first_segment d a b :
  get_default "id" (VStr "") d = VStr (a +:+ String "_" b) →
  Str.contains_char "_" a = false →
  city_display d = Ok (display_of_segment a).
Proof.
  intros Hid Ha. unfold city_display. rewrite Hid.
  by rewrite contains_char_middle, split_first.
Qed.

(** X4. For a city whose id is a string, [city_display] returns; the name
    comes from what stands before the first underscore of the id, and the
    rest of the id has no part in it. *)
Theorem X4_city_display_uses_the_first_segment (d : dict) :
  (∀ cid, get_default "id" (VStr "") d = VStr cid →
     ∃ name, city_display d = Ok name)
  ∧ (∀ a b,
       get_default "id" (VStr "") d = VStr (a +:+ "_" +:+ b) →
       Str.contains_char "_" a = false →
       city_display d = Ok (display_of_segment a)
       ∧ city_display d = city_display [("id", VStr a)]).
Proof.
  split.
  - intros cid Hid. unfold city_display. rewrite Hid. by eexists.
  - intros a b Hid Ha. split; [by eapply city_display_first_segment|].
    rewrite (city_display_first_segment d a b Hid Ha).
    unfold city_display. simpl. by rewrite Ha.
Qed.

(** New York: the display name is made from "new" alone. *)
Lemma X4_sample :
  get_default "id" (VStr "") [("id", VStr "new_york_usa")]
    = VStr ("new" +:+ "_" +:+ "york_usa")
  ∧ Str.contains_char "_" "new" = false
  ∧ city_display [("id", VStr "new_york_usa")] = Ok "New".
Proof.
  split; [reflexivity|]. split; [reflexivity|].
  exact (proj1 (proj2 (X4_city_display_uses_the_first_segment
                         [("id", VStr "new_york_usa")])
                 "new" "york_usa" eq_refl eq_refl)).
Defined.

(** X5. [default_city] makes a city of an id exactly when the id holds an
    underscore: an id without one gives no city, and an id with one gives
    a city.  The id is then the first segment, an underscore and the
    country slug; the city keeps the id, and the codes and the display
    name that a run derives from it are those of the slug, of the language
    inferred from the slug and of the first segment. *)
Theorem X5_default_city_splits_the_id (city_id : string) :
  (Str.contains_char "_" city_id = false → default_city city_id = None)
  ∧ (Str.contains_char "_" city_id = true →
       ∃ name country c,
         city_id = name +:+ "_" +:+ country
         ∧ Str.contains_char "_" name = false
         ∧ default_city city_id = Some c
         ∧ c = [ ("id", VStr city_id); ("country", VStr country);
                 ("map", VDict [("language", VStr (infer_lang country))]) ]
         ∧ city_iso3 c = Ok (to_iso3 country)
         ∧ city_lang2 c = Ok (to_lang2 (infer_lang country))
         ∧ city_display c = Ok (display_of_segment name))
  ∧ (is_Some (default_city city_id) ↔ Str.contains_char "_" city_id = true).
Proof.
  assert (Str.contains_char "_" city_id = false → default_city city_id = None)
    as Hnone.
  { intros Hno. unfold default_city. by rewrite split_without. }
  assert (Str.contains_char "_" city_id = true →
          ∃ name country c,
            city_id = name +:+ "_" +:+ country
            ∧ Str.contains_char "_" name = false
            ∧ default_city city_id = Some c
            ∧ c = [ ("id", VStr city_id); ("country", VStr country);
                    ("map", VDict [("language", VStr (infer_lang country))]) ]
            ∧ city_iso3 c = Ok (to_iso3 country)
            ∧ city_lang2 c = Ok (to_lang2 (infer_lang country))
            ∧ city_display c = Ok (display_of_segment name)) as Hsome.
  { intros Hsep.
    destruct (cut_at_first _ _ Hsep) as (name & country & -> & Hname).
    exists name, country. eexists. split; [done|]. split; [done|].
    unfold default_city. rewrite split_first by done.
    pose proof (split_not_nil "_" country) as Hne.
    destruct (Str.split "_" country) as [|h t] eqn:Hsplit; [done|].
    cbn [length tail Nat.leb]. rewrite <- Hsplit, join_split.
    split; [reflexivity|]. split; [done|].
    split; [done|]. split; [done|].
    by apply (city_display_first_segment _ name country). }
  split; [done|]. split; [done|]. split.
  - intros [c Hc]. destruct (Str.contains_char "_" city_id) eqn:Hsep; [done|].
    by rewrite Hnone in Hc.
  - intros Hsep. destruct (Hsome Hsep) as (name & country & c & _ & _ & -> & _).
    by eexists.
Qed.

(** Paris. *)
Lemma X5_sample :
  Str.contains_char "_" "paris_france" = true
  ∧ ∃ name country c,
      "paris_france" = name +:+ "_" +:+ country
      ∧ Str.contains_char "_" name = false
      ∧ default_city "paris_france" = Some c
      ∧ c = [ ("id", VStr "paris_france"); ("country", VStr country);
              ("map", VDict [("language", VStr (infer_lang country))]) ]
      ∧ city_iso3 c = Ok (to_iso3 country)
      ∧ city_lang2 c = Ok (to_lang2 (infer_lang country))
      ∧ city_display c = Ok (display_of_segment name).
Proof.
  split; [reflexivity|].
  exact (proj1 (proj2 (X5_default_city_splits_the_id "paris_france")) eq_refl).
Defined.

(** ** Deduplication and validation of a batch *)

Lemma lower_strip_error v e : lower_strip v = Raise e → e = AttributeError.
Proof.
  unfold lower_strip. destruct (py_or v (VStr "")); simpl; congruence.
Qed.

Lemma dedup_key_error r e : dedup_key r = Raise e → e = AttributeError.
Proof.
  unfold dedup_key.
  destruct (lower_strip (get "email" r)) as [k|e1] eqn:H1; simpl.
  - destruct (Str.is_empty k); simpl; [|discriminate].
    destruct (lower_strip (get "instagram" r)) as [i|e2] eqn:H2; simpl;
      [discriminate|].
    intros [= <-]. by eapply lower_strip_error.
  - intros [= <-]. by eapply lower_strip_error.
Qed.

Lemma add_unseen_ok rows seen out :
  Forall (λ r, ∃ k, dedup_key r = Ok k) rows →
  add_unseen rows seen out
  = Ok (keys (unseen seen rows) ∪ seen, out ++ unseen seen rows).
Proof.
  revert seen out. induction rows as [|r rows IH]; intros seen out Hall; simpl.
  { rewrite app_nil_r. do 2 f_equal. unfold keys. set_solver. }
  apply Forall_cons in Hall as [[k Hk] Hall].
  assert (key_of r = k) as Hkey by (unfold key_of; by rewrite Hk).
  rewrite Hk, Hkey. simpl. rewrite (dedup_key_nonempty _ _ Hk). simpl.
  destruct (decide (k ∈ seen)) as [Hin|Hin].
  - rewrite bool_decide_eq_false_2 by tauto. by apply IH.
  - rewrite bool_decide_eq_true_2 by done. rewrite IH by done.
    rewrite <- app_assoc, keys_cons, Hkey. do 2 f_equal. set_solver.
Qed.

Lemma add_unseen_keys_ok rows seen out st :
  add_unseen rows seen out = Ok st → Forall (λ r, ∃ k, dedup_key r = Ok k) rows.
Proof.
  revert seen out. induction rows as [|r rows IH]; intros seen out; simpl;
    [constructor|].
  destruct (dedup_key r) as [k|e] eqn:Hk; simpl; [|discriminate].
  destruct (_ && _); intros H%IH; constructor; eauto.
Qed.

Lemma add_unseen_error rows seen out e :
  add_unseen rows seen out = Raise e → e = AttributeError.
Proof.
  revert seen out. induction rows as [|r rows IH]; intros seen out; simpl;
    [discriminate|].
  destruct (dedup_key r) as [k|e1] eqn:Hk; simpl.
  - destruct (_ && _); apply IH.
  - intros [= <-]. by eapply dedup_key_error.
Qed.

(** X6. What [dedupe] returns is the first row of each key, in the order
    of the rows given: a sublist of them in which no key occurs twice and
    every key of the rows occurs; deduplicating it again changes
    nothing. *)
Theorem X6_dedupe_keeps_first_occurrences (rows out : list dict) :
  dedupe rows = Ok out →
  out = first_occurrences rows
  ∧ out `sublist_of` rows
  ∧ NoDup (key_of <$> out)
  ∧ keys out = keys rows
  ∧ dedupe out = Ok out.
Proof.
  unfold dedupe.
  destruct (add_unseen rows ∅ []) as [[seen' out']|e] eqn:Hadd; simpl;
    [|discriminate].
  intros [= <-].
  pose proof (add_unseen_keys_ok _ _ _ _ Hadd) as Hok.
  apply add_unseen_spec in Hadd as [-> _]. simpl.
  split; [done|]. split; [apply unseen_sublist|]. split; [apply unseen_NoDup|].
  split.
  { pose proof (unseen_keys ∅ rows) as H. by rewrite !union_empty_r_L in H. }
  rewrite add_unseen_ok.
  - simpl. by rewrite unseen_unseen.
  - rewrite Forall_forall in Hok. apply Forall_forall. intros r Hr.
    apply Hok. by eapply sublist_subseteq; [apply unseen_sublist|].
Qed.

(** Two rows with the same email up to case. *)
Lemma X6_sample :
  dedupe [[("email", VStr "a@x.com")]; [("email", VStr "A@X.COM ")]]
    = Ok [[("email", VStr "a@x.com")]]
  ∧ dedupe [[("email", VStr "a@x.com")]] = Ok [[("email", VStr "a@x.com")]].
Proof.
  assert (dedupe [[("email", VStr "a@x.com")]; [("email", VStr "A@X.COM ")]]
          = Ok [[("email", VStr "a@x.com")]]) as H by (vm_compute; reflexivity).
  split; [exact H|].
  exact (proj2 (proj2 (proj2 (proj2 (X6_dedupe_keeps_first_occurrences _ _ H))))).
Defined.

Lemma enforce_and_trim_spec rows needed iso3 lang2 city_name ptype out :
  enforce_and_trim rows needed iso3 lang2 city_name ptype = Ok out →
  ∃ l cands,
    iterate rows = Ok l
    ∧ normalize_rows iso3 lang2 city_name ptype l [] = Ok cands
    ∧ out = slice_to needed (first_occurrences cands).
Proof.
  unfold enforce_and_trim.
  destruct (iterate rows) as [l|]; simpl; [|discriminate].
  destruct (normalize_rows _ _ _ _ l []) as [cands|] eqn:Hn; simpl; [|discriminate].
  destruct (dedupe cands) as [d|] eqn:Hd; simpl; [|discriminate].
  intros [= <-]. exists l, cands. by rewrite (dedupe_spec _ _ Hd).
Qed.

(** X7. What [enforce_and_trim] returns: items that all have a trimmed,
    non-empty name, an email or an instagram handle and the four fields
    given by the caller; no two of them with the same key; and, for a
    bound that is not negative, at most that many. *)
Theorem X7_enforce_and_trim_contract
    (rows : value) (needed : Z) (iso3 lang2 city_name ptype : string)
    (out : list dict) :
  enforce_and_trim rows needed iso3 lang2 city_name ptype = Ok out →
  Forall (valid_item iso3 lang2 city_name ptype) out
  ∧ NoDup (key_of <$> out)
  ∧ (0 ≤ needed → Z.of_nat (length out) ≤ needed).
Proof.
  intros (l & cands & _ & Hn & ->)%enforce_and_trim_spec.
  assert (Forall (valid_item iso3 lang2 city_name ptype) cands) as Hvalid.
  { eapply normalize_rows_valid; [exact Hn | constructor]. }
  destruct (slice_to_take needed (first_occurrences cands)) as [m Hm].
  split; [|split].
  - rewrite Hm. apply Forall_take. apply Forall_forall. intros item Hin.
    apply (sublist_subseteq _ _ (unseen_sublist _ _)) in Hin.
    revert item Hin. by apply Forall_forall.
  - rewrite Hm, fmap_take.
    eapply sublist_NoDup; [apply unseen_NoDup | apply sublist_take].
  - intros Hpos. rewrite slice_to_nonneg by done. rewrite length_take. lia.
Qed.

(** The sample contacts, with room for two. *)
Lemma X7_sample :
  enforce_and_trim sample_contacts 2 "FRA" "fr" "Paris" "ngo" = Ok sample_out
  ∧ Forall (valid_item "FRA" "fr" "Paris" "ngo") sample_out.
Proof.
  assert (enforce_and_trim sample_contacts 2 "FRA" "fr" "Paris" "ngo"
          = Ok sample_out) as H by (vm_compute; reflexivity).
  split; [exact H|].
  exact (proj1 (X7_enforce_and_trim_contract _ _ _ _ _ _ _ H)).
Defined.

Lemma normalize_row_error iso3 lang2 city_name ptype r e :
  normalize_row iso3 lang2 city_name ptype r = Raise e → e = AttributeError.
Proof.
  unfold normalize_row. destruct r as [| | | | | |d]; simpl; try congruence.
  destruct (py_or (get "name" d) (VStr "")); simpl; try congruence;
    destruct (negb _); try discriminate; destruct (negb _); discriminate.
Qed.

Lemma normalize_rows_error iso3 lang2 city_name ptype rows acc e :
  normalize_rows iso3 lang2 city_name ptype rows acc = Raise e →
  e = AttributeError.
Proof.
  revert acc. induction rows as [|r rows IH]; intros acc; simpl; [discriminate|].
  destruct (normalize_row iso3 lang2 city_name ptype r) as [o|e1] eqn:Hr; simpl.
  - apply IH.
  - intros [= <-]. by eapply normalize_row_error.
Qed.

Lemma normalize_rows_not_dict iso3 lang2 city_name ptype rows acc :
  existsb (λ r, negb (is_dict r)) rows = true →
  normalize_rows iso3 lang2 city_name ptype rows acc = Raise AttributeError.
Proof.
  revert acc. induction rows as [|r rows IH]; intros acc; simpl; [discriminate|].
  destruct (normalize_row iso3 lang2 city_name ptype r) as [o|e] eqn:Hr; simpl.
  - destruct r; try discriminate Hr. simpl. apply IH.
  - intros _. by rewrite (normalize_row_error _ _ _ _ _ _ Hr).
Qed.

(** X8. How [enforce_and_trim] fails.  A batch that cannot be iterated
    ([None], a boolean, a number) raises [TypeError]; a list with an element
    that is not an object raises [AttributeError], whatever else it holds;
    and no other exception leaves it. *)
Theorem X8_enforce_and_trim_errors
    (rows : value) (needed : Z) (iso3 lang2 city_name ptype : string) :
  (∀ e, enforce_and_trim rows needed iso3 lang2 city_name ptype = Raise e →
     e = TypeError ∨ e = AttributeError)
  ∧ (iterate rows = Raise TypeError →
     enforce_and_trim rows needed iso3 lang2 city_name ptype = Raise TypeError)
  ∧ (∀ l, rows = VList l →
       existsb (λ r, negb (is_dict r)) l = true →
       enforce_and_trim rows needed iso3 lang2 city_name ptype
       = Raise AttributeError).
Proof.
  split; [|split].
  - intros e. unfold enforce_and_trim.
    destruct (iterate rows) as [l|e1] eqn:Hit; simpl.
    + destruct (normalize_rows _ _ _ _ l []) as [cands|e2] eqn:Hn; simpl.
      * unfold dedupe.
        destruct (add_unseen cands ∅ []) as [[seen out]|e3] eqn:Hadd; simpl;
          [discriminate|].
        intros [= <-]. right. by eapply add_unseen_error.
      * intros [= <-]. right. by eapply normalize_rows_error.
    + intros [= <-]. left. destruct rows; simpl in Hit; congruence.
  - intros Hit. unfold enforce_and_trim. by rewrite Hit.
  - intros l -> Hl. unfold enforce_and_trim. simpl.
    by rewrite normalize_rows_not_dict.
Qed.

(** A list of ids where objects are expected. *)
Lemma X8_sample :
  existsb (λ r, negb (is_dict r)) [VStr "a@x.com"] = true
  ∧ enforce_and_trim (VList [VStr "a@x.com"]) 2 "FRA" "fr" "Paris" "ngo"
    = Raise AttributeError.
Proof.
  split; [reflexivity|].
  exact (proj2 (proj2 (X8_enforce_and_trim_errors (VList [VStr "a@x.com"]) 2
                         "FRA" "fr" "Paris" "ngo")) _ eq_refl eq_refl).
Defined.

(** ** Model gateway *)

Lemma extract_parsed json_loads p choices :
  truthy p = true →
  extract_data json_loads {| resp_parsed := Some p; resp_choices := choices |} = Ok p.
Proof. intros Hp. unfold extract_data. simpl. by rewrite Hp. Qed.

(** X9. What [call_openai] makes of a response.  A result is a dict with a
    "contacts" key; a failure is a [RuntimeError], whatever the parser
    raised; and a response with a usable [parsed] field is decoded from
    that field alone, without a look at its choices or a call of the
    parser. *)
Theorem X9_decode_response_outcomes
    (json_loads : string → result value) (resp : response) :
  (∀ data, decode_response json_loads resp = Ok data →
     has_key "contacts" data = true)
  ∧ (∀ e, decode_response json_loads resp = Raise e → ∃ msg, e = RuntimeError msg)
  ∧ (∀ p, resp_parsed resp = Some p → truthy p = true →
       ∀ json_loads' choices,
         decode_response json_loads'
           {| resp_parsed := Some p; resp_choices := choices |}
         = decode_response json_loads resp).
Proof.
  split; [|split].
  - intros data. unfold decode_response.
    destruct (extract_data json_loads resp) as [[| | | | | |d]|[]]; try discriminate.
    destruct (has_key "contacts" d) eqn:Hk; [|discriminate]. by intros [= <-].
  - intros e. unfold decode_response.
    destruct (extract_data json_loads resp) as [[| | | | | |d]|[]];
      try (intros [= <-]; by eexists).
    destruct (has_key "contacts" d); [discriminate|]. intros [= <-]. by eexists.
  - intros p Hp Ht json_loads' choices. unfold decode_response.
    rewrite extract_parsed by done.
    destruct resp as [parsed choices0]. simpl in Hp. subst parsed.
    by rewrite extract_parsed.
Qed.

(** A response with the sample contacts in its [parsed] field. *)
Lemma X9_sample :
  resp_parsed sample_response = Some (VDict [("contacts", sample_contacts)])
  ∧ truthy (VDict [("contacts", sample_contacts)]) = true
  ∧ decode_response (λ _, Raise JSONDecodeError)
      {| resp_parsed := Some (VDict [("contacts", sample_contacts)]);
         resp_choices := Some [] |}
    = decode_response (json_loads sample_env) sample_response.
Proof.
  split; [reflexivity|]. split; [reflexivity|].
  exact (proj2 (proj2 (X9_decode_response_outcomes (json_loads sample_env)
                         sample_response))
           _ eq_refl eq_refl (λ _, Raise JSONDecodeError) (Some [])).
Defined.

Lemma length_append a b :
  String.length (a +:+ b) = (String.length a + String.length b)%nat.
Proof. induction a as [|c a IH]; [done|]. rewrite append_cons. simpl. by rewrite IH. Qed.

Lemma drop_append_length a b : Str.drop (String.length a) (a +:+ b) = b.
Proof. induction a as [|c a IH]; [by destruct b|]. by rewrite append_cons. Qed.

Lemma endswith_append a b : Str.endswith (a +:+ b) b = true.
Proof.
  unfold Str.endswith. rewrite length_append.
  rewrite (proj2 (Nat.leb_le _ _)) by lia.
  replace (String.length a + String.length b - String.length b)%nat
    with (String.length a) by lia.
  rewrite drop_append_length. simpl. apply String.eqb_refl.
Qed.

Lemma strip_starts_clean s : starts_clean (Str.strip s).
Proof.
  unfold Str.strip. pose proof (lstrip_head s) as Hh.
  destruct (Str.lstrip s) as [|c t]; [done|].
  rewrite rstrip_cons, Hh, andb_false_r. exact Hh.
Qed.

Lemma take_starts_clean n s : starts_clean s → starts_clean (Str.take n s).
Proof. by destruct n, s. Qed.

Lemma rstrip_closed x : Str.rstrip (x +:+ "]}") = x +:+ "]}".
Proof.
  induction x as [|c x IH]; [done|].
  rewrite append_cons, rstrip_cons, IH.
  by destruct x.
Qed.

Lemma strip_closed x : starts_clean x → Str.strip (x +:+ "]}") = x +:+ "]}".
Proof.
  intros Hx. unfold Str.strip.
  assert (Str.lstrip (x +:+ "]}") = x +:+ "]}") as ->; [|apply rstrip_closed].
  destruct x as [|c x]; [done|]. rewrite append_cons. simpl. simpl in Hx.
  by rewrite Hx.
Qed.

Lemma recover_closed x :
  starts_clean x → recover_truncated (x +:+ "]}") = x +:+ "]}".
Proof.
  intros Hx. unfold recover_truncated. rewrite strip_closed by done.
  assert (Str.endswith (x +:+ "]}") "}" = true) as ->; [|by rewrite andb_false_r].
  change (x +:+ "]}") with (x +:+ ("]" +:+ "}")).
  rewrite <- append_assoc. apply endswith_append.
Qed.

Lemma recover_strip s : recover_truncated (Str.strip s) = recover_truncated s.
Proof. unfold recover_truncated. by rewrite strip_idemp. Qed.

(** The two outcomes of the recovery. *)
Lemma recover_cases s :
  recover_truncated s = Str.strip s
  ∨ ∃ n, recover_truncated s = Str.take n (Str.strip s) +:+ "]}".
Proof.
  unfold recover_truncated.
  destruct (_ && _); [|by left].
  destruct (-1 <? _); [|by left].
  destruct (-1 <? _); right; eauto.
Qed.

(** X10. The recovery of a truncated text either hands over the text as
    it is, stripped, or a part of it from the start, closed with a bracket
    and a brace; a text that ends with a brace is only stripped; and the
    recovery leaves its own results as they are. *)
Theorem X10_recovery_shape_and_idempotence (s : string) :
  (recover_truncated s = Str.strip s
   ∨ ∃ n, recover_truncated s = Str.take n (Str.strip s) +:+ "]}")
  ∧ (Str.endswith (Str.strip s) "}" = true → recover_truncated s = Str.strip s)
  ∧ recover_truncated (recover_truncated s) = recover_truncated s.
Proof.
  split; [apply recover_cases|]. split.
  - intros He. unfold recover_truncated. by rewrite He, andb_false_r.
  - destruct (recover_cases s) as [H | [n H]].
    + rewrite H at 1. by rewrite recover_strip.
    + rewrite H. apply recover_closed, take_starts_clean, strip_starts_clean.
Qed.

(** A complete document with white space around it. *)
Lemma X10_sample :
  Str.endswith (Str.strip " {} ") "}" = true ∧ recover_truncated " {} " = "{}".
Proof.
  split; [reflexivity|].
  exact (proj1 (proj2 (X10_recovery_shape_and_idempotence " {} ")) eq_refl).
Defined.

(** ** Persistence layer *)

Lemma get_default_fmap k d (f : string → value) (l : list string) :
  get_default k d ((λ k', (k', f k')) <$> l) = if decide (k ∈ l) then f k else d.
Proof.
  induction l as [|a l IH].
  - rewrite decide_False; [done | apply not_elem_of_nil].
  - change (get_default k d ((λ k', (k', f k')) <$> a :: l))
      with (if String.eqb k a then f a
            else get_default k d ((λ k', (k', f k')) <$> l)).
    destruct (String.eqb_spec k a) as [->|Hne].
    + rewrite decide_True; [done | apply elem_of_cons; auto].
    + rewrite IH. destruct (decide (k ∈ l)) as [Hin|Hin].
      * rewrite decide_True; [done | apply elem_of_cons; auto].
      * rewrite decide_False; [done|].
        intros [?|?]%elem_of_cons; done.
Qed.

Lemma py_or_py_or v : py_or (py_or v (VStr "")) (VStr "") = py_or v (VStr "").
Proof. unfold py_or. by destruct (truthy v) eqn:Hv; [rewrite Hv|]. Qed.

(** X11. The row [write_csv] hands to the writer has the columns of the
    header, in the order of the header, and nothing else; a column holds
    the value of the record when that value is truthy and the empty string
    otherwise, so never [None]; and making a row of such a row changes
    nothing. *)
Theorem X11_written_row_has_the_header_columns (r : dict) :
  (csv_row r).*1 = CSV_HEADER
  ∧ (∀ k, k ∈ CSV_HEADER →
       get k (csv_row r) = (if truthy (get k r) then get k r else VStr "")
       ∧ get k (csv_row r) ≠ VNone)
  ∧ (∀ k, k ∉ CSV_HEADER → get k (csv_row r) = VNone)
  ∧ csv_row (csv_row r) = csv_row r.
Proof.
  split; [reflexivity|]. split; [|split].
  - intros k Hk.
    assert (get k (csv_row r) = (if truthy (get k r) then get k r else VStr ""))
      as Hget.
    { unfold get at 1, csv_row.
      by rewrite get_default_fmap, decide_True, py_or_get_default. }
    split; [done|]. rewrite Hget.
    destruct (truthy (get k r)) eqn:Ht; [|done]. intros Hn. by rewrite Hn in Ht.
  - intros k Hk. unfold get, csv_row. by rewrite get_default_fmap, decide_False.
  - unfold csv_row at 1 3. apply list_fmap_ext. intros i k Hk. f_equal.
    apply list_elem_of_lookup_2 in Hk.
    unfold csv_row. rewrite get_default_fmap, decide_True by done.
    apply py_or_py_or.
Qed.

Lemma X11_sample :
  "email" ∈ CSV_HEADER
  ∧ get "email" (csv_row nameless_channel_row) = VStr "".
Proof.
  split; [vm_compute; set_solver|].
  assert ("email" ∈ CSV_HEADER) as H by (unfold CSV_HEADER; set_solver).
  exact (proj1 (proj1 (proj2 (X11_written_row_has_the_header_columns
                                 nameless_channel_row)) "email" H)).
Defined.

Lemma drop_append a b n :
  Str.drop (String.length a + n) (a +:+ b) = Str.drop n b.
Proof. induction a as [|c a IH]; [done|]. by rewrite append_cons. Qed.

Lemma endswith_append_char a b c :
  b ≠ EmptyString →
  Str.endswith (a +:+ b) (String c EmptyString) = Str.endswith b (String c EmptyString).
Proof.
  intros Hb. unfold Str.endswith. rewrite length_append.
  assert (1 ≤ String.length b)%nat as Hl by (destruct b; [done | simpl; lia]).
  change (String.length (String c EmptyString)) with 1%nat.
  rewrite !(proj2 (Nat.leb_le _ _)) by lia.
  replace (String.length a + String.length b - 1)%nat
    with (String.length a + (String.length b - 1))%nat by lia.
  by rewrite drop_append.
Qed.

Lemma partner_type_plain t :
  t ∈ PARTNER_TYPES →
  String.prefix "/" t = false ∧ t ≠ EmptyString ∧ Str.endswith t "/" = false.
Proof.
  intros Ht. unfold PARTNER_TYPES in Ht.
  repeat (apply elem_of_cons in Ht as [->|Ht]; [done|]).
  by apply elem_of_nil in Ht.
Qed.

Lemma pair_path_csv out_root cid t :
  t ∈ PARTNER_TYPES →
  pair_path out_root (VStr cid) t
  = Ok ((path_join out_root (sanitize cid)
           +:+ (path_sep (path_join out_root (sanitize cid)) +:+ t))
          +:+ "/contacts.csv").
Proof.
  intros Ht. destruct (partner_type_plain t Ht) as (Hrel & Hne & Hend).
  unfold pair_path. simpl.
  set (P := path_join out_root (sanitize cid)).
  rewrite (path_join_relative P t Hrel).
  rewrite (path_join_relative _ "contacts.csv") by done.
  do 2 f_equal. unfold path_sep.
  rewrite <- append_assoc, endswith_append_char, Hend, orb_false_r by done.
  assert (∀ a, Str.is_empty (a +:+ t) = false) as ->; [|done].
  intros a. destruct t; [done|]. by destruct a.
Qed.

(** X12. The files of a city.  For a city whose id is a string, each of
    the six partner types has a path; that path is a file named
    contacts.csv in a directory whose name ends with the type; the six
    paths differ from one another; and two ids that [sanitize] maps to the
    same text share their files.  For an id that is not a string, the
    existence check raises. *)
Theorem X12_pair_paths (out_root : string) (city_id : value) :
  (∀ cid, city_id = VStr cid →
     (∀ t, t ∈ PARTNER_TYPES →
        ∃ dir, pair_path out_root city_id t = Ok (dir +:+ "/contacts.csv")
               ∧ Str.endswith dir t = true)
     ∧ (∀ t1 t2 p, t1 ∈ PARTNER_TYPES → t2 ∈ PARTNER_TYPES →
          pair_path out_root city_id t1 = Ok p →
          pair_path out_root city_id t2 = Ok p → t1 = t2)
     ∧ (∀ cid' t, sanitize cid' = sanitize cid →
          pair_path out_root (VStr cid') t = pair_path out_root city_id t))
  ∧ ((∀ cid, city_id ≠ VStr cid) →
     ∀ t w, file_exists out_root city_id t w = (Raise AttributeError, w)).
Proof.
  split.
  - intros cid ->. split; [|split].
    + intros t Ht. eexists. split; [by apply pair_path_csv|].
      rewrite <- append_assoc. apply endswith_append.
    + intros t1 t2 p. apply pair_path_inj.
    + intros cid' t Hs. unfold pair_path. simpl. by rewrite Hs.
  - intros Hn t w. unfold file_exists, mbind, M_bind, lift, pair_path.
    destruct city_id as [| | | |cid| |]; try done. by destruct (Hn cid).
Qed.

Lemma X12_sample :
  VStr "paris_france" = VStr "paris_france"
  ∧ "ngo" ∈ PARTNER_TYPES
  ∧ ∃ dir, pair_path "out" (VStr "paris_france") "ngo" = Ok (dir +:+ "/contacts.csv")
           ∧ Str.endswith dir "ngo" = true.
Proof.
  split; [reflexivity|].
  assert ("ngo" ∈ PARTNER_TYPES) as H by (unfold PARTNER_TYPES; set_solver).
  split; [exact H|].
  exact (proj1 (proj1 (X12_pair_paths "out" (VStr "paris_france"))
                  "paris_france" eq_refl) "ngo" H).
Defined.

(** ** Requests *)

Section Budget.

Context (E : env) (model : string) (city : dict).

Lemma collect_loop_calls ptype iso3 lang2 city_name need fuel collected attempts seen w :
  (calls w
   ≤ calls (collect_loop E model city ptype iso3 lang2 city_name need
              fuel collected attempts seen w).2
   ≤ calls w + (4 - attempts))%nat.
Proof.
  revert collected attempts seen w.
  induction fuel as [|fuel IH]; intros collected attempts seen w; [simpl; lia|].
  rewrite collect_loop_step.
  destruct (Z.of_nat (length collected) <? need); simpl; [|lia].
  destruct (Nat.ltb_spec attempts 4) as [Hlt|Hge]; simpl; [|lia].
  destruct (_ ≫= _) as [[seen' new_batch]|e]; [|simpl; lia].
  destruct (pause E) as [[]|e]; [|simpl; lia].
  specialize (IH (collected ++ new_batch) (S attempts) seen'
                (requested model (build_user_prompt city ptype iso3 lang2) true w)).
  simpl in IH. lia.
Qed.

Lemma collect_calls ptype iso3 lang2 city_name need w :
  (calls w
   ≤ calls (collect E model city ptype iso3 lang2 city_name need w).2
   ≤ calls w + 4)%nat.
Proof.
  unfold collect, mbind, M_bind.
  pose proof (collect_loop_calls ptype iso3 lang2 city_name need 4 [] 0 ∅ w) as H.
  destruct (collect_loop _ _ _ _ _ _ _ _ _ _ _ _ _) as [[[collected attempts]|e] w'];
    simpl in *; lia.
Qed.

(** With a target of zero or less the loop does not run. *)
Lemma collect_zero ptype iso3 lang2 city_name need w :
  need ≤ 0 →
  collect E model city ptype iso3 lang2 city_name need w = (Ok [], w).
Proof.
  intros Hn. unfold collect, mbind, M_bind.
  rewrite collect_loop_step.
  change (Z.of_nat (length (@nil dict))) with 0.
  destruct (Z.ltb_spec 0 need) as [?|_]; [lia|].
  cbn [andb]. cbv beta iota. unfold mret, M_ret, slice_to.
  destruct (0 <=? need); by rewrite take_nil.
Qed.

(** The outcomes of a pair: no path; a file that exists; a loop that
    raises or a file that cannot be created; a file written, in part or
    in full. *)
Lemma run_pair_cases per_type out_root iso3 lang2 city_id city_name i ptype w :
  let r := run_pair E model city per_type out_root iso3 lang2 city_id city_name
             i ptype w in
  let c := collect E model city ptype iso3 lang2 city_name per_type
             (print (LogProcessingType i ptype) w).2 in
  (∃ e, pair_path out_root city_id ptype = Raise e ∧ r = (Raise e, w))
  ∨ (∃ path, pair_path out_root city_id ptype = Ok path
       ∧ ((is_Some (fs w !! path) ∧ r = print (LogSkipping i ptype) w)
          ∨ (fs w !! path = None
             ∧ ((∃ e, r = (Raise e, c.2))
                ∨ (∃ rows, fs r.2 = <[path := rows]> (fs c.2)
                           ∧ calls r.2 = calls c.2))))).
Proof.
  intros r c. subst r c.
  destruct (pair_path out_root city_id ptype) as [path|e] eqn:Hp.
  2:{ left. exists e. split; [done|]. by apply run_pair_no_path. }
  right. exists path. split; [done|].
  destruct (fs w !! path) as [rows|] eqn:Hex.
  { left. split; [eauto|]. apply (run_pair_skip _ _ _ _ _ _ _ _ _ _ _ path); eauto. }
  right. split; [done|].
  destruct (run_pair_fresh_tail E model city per_type out_root iso3 lang2 city_id
              city_name i ptype path w Hp Hex)
    as [[e He] | (collected & n & tail & _ & Hfs & Hcalls & _)].
  - left. by exists e.
  - right. eauto.
Qed.

Lemma run_pair_calls per_type out_root iso3 lang2 city_id city_name i ptype w :
  (calls w
   ≤ calls (run_pair E model city per_type out_root iso3 lang2 city_id city_name
              i ptype w).2
   ≤ calls w + (if (0 <? per_type)%Z then 4 else 0))%nat.
Proof.
  pose proof (run_pair_cases per_type out_root iso3 lang2 city_id city_name
                i ptype w) as H.
  pose proof (collect_calls ptype iso3 lang2 city_name per_type
                (print (LogProcessingType i ptype) w).2) as Hc.
  assert (¬ 0 < per_type →
          collect E model city ptype iso3 lang2 city_name per_type
            (print (LogProcessingType i ptype) w).2
          = (Ok [], (print (LogProcessingType i ptype) w).2)) as Hz.
  { intros ?. apply collect_zero. lia. }
  simpl in H, Hc, Hz.
  destruct (Z.ltb_spec 0 per_type) as [Hpos|Hneg].
  - destruct H as [(e & _ & ->) | (path & _ & [[_ ->] | [_ [(e & ->)
      | (rows & _ & ->)]]])]; simpl; lia.
  - rewrite Hz in H, Hc by lia.
    destruct H as [(e & _ & ->) | (path & _ & [[_ ->] | [_ [(e & ->)
      | (rows & _ & ->)]]])]; simpl; lia.
Qed.

End Budget.

Lemma for_each_calls {A} (k : nat) (body : A → M ()) (l : list A) w :
  (∀ x w, (calls w ≤ calls (body x w).2 ≤ calls w + k)%nat) →
  (calls w ≤ calls (for_each l body w).2 ≤ calls w + k * length l)%nat.
Proof.
  intros Hbody. revert w. induction l as [|x l IH]; intros w; [simpl; lia|].
  rewrite for_each_cons. specialize (Hbody x w).
  destruct (body x w) as [[[]|e] w1]; simpl in *; [|lia].
  specialize (IH w1). lia.
Qed.

Lemma run_for_city_unfold E model city per_type out_root w :
  (∃ e, run_for_city E model city per_type out_root w = (Raise e, w))
  ∨ ∃ iso3 lang2 city_name,
      city_iso3 city = Ok iso3 ∧ city_lang2 city = Ok lang2
      ∧ city_display city = Ok city_name
      ∧ run_for_city E model city per_type out_root w
        = for_each (enumerate1 PARTNER_TYPES)
            (λ '(i, ptype),
               run_pair E model city per_type out_root iso3 lang2 (get "id" city)
                 city_name i ptype) w.
Proof.
  unfold run_for_city, mbind, M_bind, lift.
  destruct (city_iso3 city) as [iso3|e]; [|left; by exists e].
  destruct (city_lang2 city) as [lang2|e]; [|left; by exists e].
  destruct (city_display city) as [city_name|e]; [|left; by exists e].
  right. by exists iso3, lang2, city_name.
Qed.

Lemma run_for_city_calls E model city per_type out_root w :
  (calls w
   ≤ calls (run_for_city E model city per_type out_root w).2
   ≤ calls w + (if (0 <? per_type)%Z then 24 else 0))%nat.
Proof.
  destruct (run_for_city_unfold E model city per_type out_root w)
    as [[e ->] | (iso3 & lang2 & city_name & _ & _ & _ & ->)]; [simpl; lia|].
  match goal with
  | |- context [for_each ?l ?body w] =>
      pose proof (for_each_calls (if (0 <? per_type)%Z then 4 else 0)%nat body l w) as H
  end.
  change (length (enumerate1 PARTNER_TYPES)) with 6%nat in H.
  assert (Hb := H (λ '(i, ptype) w0,
    run_pair_calls E model city per_type out_root iso3 lang2 (get "id" city)
      city_name i ptype w0)).
  clear H. destruct (0 <? per_type); lia.
Qed.

Lemma process_city_calls E a n ic w :
  (calls w
   ≤ calls (process_city E a n ic w).2
   ≤ calls w + (if (0 <? arg_per_type a)%Z then 24 else 0))%nat.
Proof.
  destruct ic as [i city]. destruct city as [| | | | | |d];
    try (rewrite process_city_not_dict by done; simpl; lia).
  rewrite process_city_dict.
  pose proof (run_for_city_calls E (arg_model a) d (arg_per_type a) (arg_out a)
                (print (LogProcessingCity i n (city_label d)) w).2) as H.
  destruct (run_for_city _ _ _ _ _ _) as [[[]|e] w1]; simpl in *; lia.
Qed.

Lemma run_cities_unfold E a cities w :
  let w0 := (print (LogProcessingCities (length cities)) w).2 in
  run_cities E a cities w
  = match new_client E with
    | Raise e => (Raise e, w0)
    | Ok _ =>
        match for_each (enumerate1 cities) (process_city E a (length cities)) w0 with
        | (Ok _, w1) => (Ok None, w1)
        | (Raise e, w1) => (Raise e, w1)
        end
    end.
Proof.
  unfold run_cities, mbind, M_bind, lift. simpl.
  destruct (new_client E) as [[]|e]; [|done].
  by destruct (for_each _ _ _) as [[[]|e] w1].
Qed.

Lemma length_enumerate1 {A} (l : list A) : length (enumerate1 l) = length l.
Proof. unfold enumerate1. rewrite length_zip, length_seq. lia. Qed.

(** X13. The request budget.  The loop of a pair sends at most four
    requests, the run of a city at most twenty-four, a batch at most
    twenty-four for each city of the list, whatever the service answers
    and however the run ends; with a target of zero or less none is sent. *)
Theorem X13_request_budget (E : env) (a : args) :
  (∀ model city ptype iso3 lang2 city_name need w,
     (calls w
      ≤ calls (collect E model city ptype iso3 lang2 city_name need w).2
      ≤ calls w + 4)%nat)
  ∧ (∀ model city per_type out_root w,
       (calls w
        ≤ calls (run_for_city E model city per_type out_root w).2
        ≤ calls w + 24)%nat)
  ∧ (∀ cities w,
       (calls w
        ≤ calls (run_cities E a cities w).2
        ≤ calls w + 24 * length cities)%nat
       ∧ (arg_per_type a ≤ 0 → calls (run_cities E a cities w).2 = calls w)).
Proof.
  split; [|split].
  - intros. apply collect_calls.
  - intros model city per_type out_root w.
    pose proof (run_for_city_calls E model city per_type out_root w) as H.
    destruct (0 <? per_type); lia.
  - intros cities w. rewrite run_cities_unfold.
    destruct (new_client E) as [[]|e]; [|simpl; split; lia].
    pose proof (for_each_calls (if (0 <? arg_per_type a)%Z then 24 else 0)%nat
                  (process_city E a (length cities)) (enumerate1 cities)
                  (print (LogProcessingCities (length cities)) w).2
                  (process_city_calls E a (length cities))) as H.
    rewrite length_enumerate1 in H.
    destruct (for_each _ _ _) as [[[]|e] w1]; simpl in *;
      (destruct (Z.ltb_spec 0 (arg_per_type a)); split; [nia | lia | nia | lia]).
Qed.

Lemma X13_sample :
  arg_per_type
    {| arg_cities := None; arg_out := "out"; arg_model := "gpt-4o";
       arg_per_type := 0; arg_merge := false;
       arg_merge_output := "merged_contacts.csv" |} ≤ 0
  ∧ calls (run_cities sample_env
             {| arg_cities := None; arg_out := "out"; arg_model := "gpt-4o";
                arg_per_type := 0; arg_merge := false;
                arg_merge_output := "merged_contacts.csv" |}
             [VDict paris] empty_world).2
    = calls empty_world.
Proof.
  split; [simpl; lia|].
  apply (proj2 (proj2 (X13_request_budget sample_env _))). simpl. lia.
Defined.

(** ** Outcome of a pair and reruns *)

Section Outcome.

Context (E : env) (model : string) (city : dict) (per_type : Z) (out_root : string).
Context (iso3 lang2 : string) (city_id : value) (city_name : string).

Let pair := run_pair E model city per_type out_root iso3 lang2 city_id city_name.

Lemma run_pair_done i ptype w w' :
  pair i ptype w = (Ok (), w') →
  ∃ path, pair_path out_root city_id ptype = Ok path ∧ is_Some (fs w' !! path).
Proof.
  intros Hrun.
  destruct (run_pair_cases E model city per_type out_root iso3 lang2 city_id
              city_name i ptype w)
    as [(e & _ & H) | (path & Hp & [[Hex H] | [_ [(e & H) | (rows & H & _)]]])];
    fold pair in H; rewrite Hrun in H; try discriminate;
    exists path; (split; [done|]).
  - by injection H as ->.
  - simpl in H. rewrite H, lookup_insert_eq. eauto.
Qed.

(** The disk after a turn that raises: as it was, or with the file of the
    pair, which did not exist, created. *)
Lemma run_pair_raise i ptype w e :
  (pair i ptype w).1 = Raise e →
  fs (pair i ptype w).2 = fs w
  ∨ ∃ path rows, pair_path out_root city_id ptype = Ok path
       ∧ fs w !! path = None
       ∧ fs (pair i ptype w).2 = <[path := rows]> (fs w).
Proof.
  intros Hr.
  destruct (collect_frame E model city ptype iso3 lang2 city_name per_type
              (print (LogProcessingType i ptype) w).2) as [Hfs _].
  destruct (run_pair_cases E model city per_type out_root iso3 lang2 city_id
              city_name i ptype w)
    as [(e' & _ & H) | (path & Hp & [[Hex H] | [Hex [(e' & H) | (rows & H & _)]]])];
    fold pair in H.
  - left. by rewrite H.
  - left. by rewrite H.
  - left. by rewrite H.
  - right. exists path, rows. by rewrite H, Hfs.
Qed.

Lemma run_pair_others i ptype path p w :
  pair_path out_root city_id ptype = Ok path → p ≠ path →
  fs (pair i ptype w).2 !! p = fs w !! p.
Proof.
  intros Hpath Hne.
  destruct (collect_frame E model city ptype iso3 lang2 city_name per_type
              (print (LogProcessingType i ptype) w).2) as [Hfs _].
  destruct (run_pair_cases E model city per_type out_root iso3 lang2 city_id
              city_name i ptype w)
    as [(e' & _ & H) | (path' & Hp & [[Hex H] | [_ [(e' & H) | (rows & H & _)]]])];
    fold pair in H; rewrite H; simpl in *; try done; try (by rewrite Hfs).
  rewrite Hpath in Hp. injection Hp as <-.
  rewrite lookup_insert_ne by done. by rewrite Hfs.
Qed.

Lemma run_pair_keeps i ptype p w :
  is_Some (fs w !! p) → is_Some (fs (pair i ptype w).2 !! p).
Proof.
  intros Hex.
  destruct (pair_path out_root city_id ptype) as [path|e] eqn:Hpath.
  2:{ unfold pair. by rewrite (run_pair_no_path _ _ _ _ _ _ _ _ _ _ _ e). }
  destruct (decide (p = path)) as [->|Hne].
  - unfold pair. by rewrite (run_pair_skip _ _ _ _ _ _ _ _ _ _ _ path).
  - by rewrite (run_pair_others _ _ path).
Qed.

(** When the files of the pairs of [l] exist, their turns only print. *)
Lemma for_each_skips (l : list (nat * string)) w :
  (∀ it, it ∈ l →
     ∃ path, pair_path out_root city_id it.2 = Ok path ∧ is_Some (fs w !! path)) →
  for_each l (λ '(i, ptype), pair i ptype) w
  = (Ok (),
     {| fs := fs w; calls := calls w;
        trace := trace w
          ++ ((λ it : nat * string, EvPrint false (LogSkipping it.1 it.2)) <$> l) |}).
Proof.
  revert w. induction l as [|[i ptype] l IH]; intros w Hl.
  { simpl. unfold mret, M_ret. destruct w. simpl. by rewrite app_nil_r. }
  rewrite for_each_cons.
  destruct (Hl (i, ptype)) as (path & Hp & Hex); [apply elem_of_cons; auto|].
  unfold pair at 1. rewrite (run_pair_skip _ _ _ _ _ _ _ _ _ _ _ path) by done.
  unfold print, emit. rewrite IH.
  - simpl. by rewrite <- app_assoc.
  - intros it Hit. apply Hl. apply elem_of_cons; auto.
Qed.

End Outcome.

Lemma for_each_post {A} (Q : A → world → Prop) (body : A → M ()) (l : list A) :
  (∀ x w w', x ∈ l → body x w = (Ok (), w') → Q x w') →
  (∀ x y w, x ∈ l → y ∈ l → Q x w → Q x (body y w).2) →
  ∀ w w', for_each l body w = (Ok (), w') → ∀ x, x ∈ l → Q x w'.
Proof.
  induction l as [|a l IH]; intros Hest Hpres w w' Hrun x Hx.
  { by apply elem_of_nil in Hx. }
  rewrite for_each_cons in Hrun.
  destruct (body a w) as [[[]|e] w1] eqn:Hb; [|done].
  apply elem_of_cons in Hx as [->|Hx].
  - assert (Q a w1) as HQ by (eapply Hest; [apply elem_of_cons; auto | done]).
    replace w' with (for_each l body w1).2 by (by rewrite Hrun).
    apply (for_each_invariant (Q a)); [|done].
    intros y w2 Hy HQ2. apply Hpres; [| |done]; apply elem_of_cons; auto.
  - apply (IH (λ x w w' Hx, Hest x w w' (proj2 (elem_of_cons _ _ _) (or_intror Hx)))
             (λ x y w Hx Hy, Hpres x y w
                (proj2 (elem_of_cons _ _ _) (or_intror Hx))
                (proj2 (elem_of_cons _ _ _) (or_intror Hy)))
             w1 w' Hrun x Hx).
Qed.

(** X14. With a target of zero or less the loop of a pair sends no request
    and collects nothing, and a pair whose file is missing gets a file
    with no rows: the turn prints its first line and writes the empty
    list, then prints the line that reports the file and returns, or, on
    a standard output that cannot encode that line, raises with the file
    on disk. *)
Theorem X14_target_of_zero_or_less
    (E : env) (model : string) (city : dict) (per_type : Z) (out_root : string)
    (iso3 lang2 : string) (city_id : value) (city_name : string)
    (i : nat) (ptype path : string) (w : world) :
  per_type ≤ 0 →
  pair_path out_root city_id ptype = Ok path →
  fs w !! path = None →
  open_for_write E path = Ok () →
  collect E model city ptype iso3 lang2 city_name per_type w = (Ok [], w)
  ∧ run_pair E model city per_type out_root iso3 lang2 city_id city_name i ptype w
    = match stdout_arrow E with
      | Ok _ =>
          (Ok (),
           {| fs := <[path := []]> (fs w); calls := calls w;
              trace := trace w
                ++ [EvPrint false (LogProcessingType i ptype); EvWrite path [];
                    EvPrint false (LogWrote 0 path)] |})
      | Raise e =>
          (Raise e,
           {| fs := <[path := []]> (fs w); calls := calls w;
              trace := trace w
                ++ [EvPrint false (LogProcessingType i ptype); EvWrite path []] |})
      end.
Proof.
  intros Hn Hp Hex Hopen. split; [by apply collect_zero|].
  rewrite (run_pair_fresh _ _ _ _ _ _ _ _ _ _ _ path) by done.
  rewrite collect_zero by done. rewrite Hopen.
  unfold print_arrow, print, emit. simpl.
  destruct (stdout_arrow E) as [[]|e]; simpl; by rewrite <- !app_assoc.
Qed.

Lemma X14_sample :
  0 ≤ 0
  ∧ pair_path "out" (VStr "paris_france") "ngo" = Ok "out/paris_france/ngo/contacts.csv"
  ∧ fs empty_world !! "out/paris_france/ngo/contacts.csv" = None
  ∧ open_for_write latin1_stdout_env "out/paris_france/ngo/contacts.csv" = Ok ()
  ∧ collect latin1_stdout_env "gpt-4o" paris "ngo" "FRA" "fr" "Paris" 0 empty_world
    = (Ok [], empty_world).
Proof.
  assert (0 ≤ 0) as H0 by lia.
  assert (pair_path "out" (VStr "paris_france") "ngo"
          = Ok "out/paris_france/ngo/contacts.csv") as H1 by (vm_compute; reflexivity).
  assert (fs empty_world !! "out/paris_france/ngo/contacts.csv" = None) as H2
    by (vm_compute; reflexivity).
  assert (open_for_write latin1_stdout_env "out/paris_france/ngo/contacts.csv" = Ok ())
    as H3 by reflexivity.
  repeat (split; [assumption|]).
  exact (proj1 (X14_target_of_zero_or_less latin1_stdout_env "gpt-4o" paris 0 "out"
                  "FRA" "fr" (VStr "paris_france") "Paris" 5
                  "ngo" "out/paris_france/ngo/contacts.csv" empty_world
                  H0 H1 H2 H3)).
Defined.

(** X15. How the turn of a pair leaves the disk.  A turn that returns
    leaves the file of the pair on disk.  A turn that raises leaves the
    disk as it was, or as it was but for the file of the pair, which did
    not exist and now does: the error came after the file was created,
    from a row that could not be written or from the line that reports
    the file.  No turn touches a path other than that of its pair, and no
    turn removes a file. *)
Theorem X15_pair_touches_only_its_own_file
    (E : env) (model : string) (city : dict) (per_type : Z) (out_root : string)
    (iso3 lang2 : string) (city_id : value) (city_name : string)
    (i : nat) (ptype : string) (w : world) :
  let r := run_pair E model city per_type out_root iso3 lang2 city_id city_name
             i ptype w in
  (r.1 = Ok () →
     ∃ path, pair_path out_root city_id ptype = Ok path ∧ is_Some (fs r.2 !! path))
  ∧ (∀ e, r.1 = Raise e →
       fs r.2 = fs w
       ∨ ∃ path rows, pair_path out_root city_id ptype = Ok path
           ∧ fs w !! path = None
           ∧ fs r.2 = <[path := rows]> (fs w))
  ∧ (∀ path p, pair_path out_root city_id ptype = Ok path → p ≠ path →
       fs r.2 !! p = fs w !! p)
  ∧ (∀ p, is_Some (fs w !! p) → is_Some (fs r.2 !! p)).
Proof.
  intros r. subst r. split; [|split; [|split]].
  - intros Hok.
    apply (run_pair_done E model city per_type out_root iso3 lang2 city_id
             city_name i ptype w).
    revert Hok. by destruct (run_pair _ _ _ _ _ _ _ _ _ _ _ _) as [[[]|e] w'].
  - intros e. apply run_pair_raise.
  - intros path p. apply run_pair_others.
  - intros p. apply run_pair_keeps.
Qed.

(** A turn that raises at the line that reports the file: the file is on
    disk. *)
Lemma X15_sample :
  (run_pair latin1_stdout_env "gpt-4o" paris 2 "out" "FRA" "fr" (VStr "paris_france")
     "Paris" 5 "ngo" empty_world).1
  = Raise (ValueError "'latin-1' codec can't encode character")
  ∧ is_Some (fs (run_pair latin1_stdout_env "gpt-4o" paris 2 "out" "FRA" "fr"
                   (VStr "paris_france") "Paris" 5 "ngo" empty_world).2
             !! "out/paris_france/ngo/contacts.csv")
  ∧ (fs (run_pair latin1_stdout_env "gpt-4o" paris 2 "out" "FRA" "fr"
           (VStr "paris_france") "Paris" 5 "ngo" empty_world).2
     = fs empty_world
     ∨ ∃ path rows,
         pair_path "out" (VStr "paris_france") "ngo" = Ok path
         ∧ fs empty_world !! path = None
         ∧ fs (run_pair latin1_stdout_env "gpt-4o" paris 2 "out" "FRA" "fr"
                 (VStr "paris_france") "Paris" 5 "ngo" empty_world).2
           = <[path := rows]> (fs empty_world)).
Proof.
  assert ((run_pair latin1_stdout_env "gpt-4o" paris 2 "out" "FRA" "fr"
             (VStr "paris_france") "Paris" 5 "ngo" empty_world).1
          = Raise (ValueError "'latin-1' codec can't encode character")) as H
    by (vm_compute; reflexivity).
  split; [exact H|]. split; [vm_compute; eauto|].
  exact (proj1 (proj2 (X15_pair_touches_only_its_own_file latin1_stdout_env "gpt-4o"
                         paris 2 "out" "FRA" "fr" (VStr "paris_france") "Paris" 5
                         "ngo" empty_world)) _ H).
Defined.

Lemma run_for_city_eq E model city per_type out_root iso3 lang2 city_name w :
  city_iso3 city = Ok iso3 → city_lang2 city = Ok lang2 →
  city_display city = Ok city_name →
  run_for_city E model city per_type out_root w
  = for_each (enumerate1 PARTNER_TYPES)
      (λ '(i, ptype),
         run_pair E model city per_type out_root iso3 lang2 (get "id" city)
           city_name i ptype) w.
Proof.
  intros Hiso Hlang Hname. unfold run_for_city, mbind, M_bind, lift.
  by rewrite Hiso, Hlang, Hname.
Qed.

Lemma run_pairs_files E model city per_type out_root iso3 lang2 city_id city_name
    (l : list (nat * string)) w w' :
  for_each l
    (λ '(i, ptype),
       run_pair E model city per_type out_root iso3 lang2 city_id city_name
         i ptype) w = (Ok (), w') →
  ∀ it, it ∈ l →
    ∃ path, pair_path out_root city_id it.2 = Ok path ∧ is_Some (fs w' !! path).
Proof.
  intros Hrun.
  apply (for_each_post
           (λ it w0, ∃ path, pair_path out_root city_id it.2 = Ok path
                             ∧ is_Some (fs w0 !! path))
           (λ '(i, ptype),
              run_pair E model city per_type out_root iso3 lang2 city_id city_name
                i ptype) l) with (w := w); [| |exact Hrun].
  - intros [i t] w0 w1 _ H. simpl. by eapply run_pair_done.
  - intros x [j t] w0 _ _ (path & Hp & Hex). exists path. split; [done|].
    by apply run_pair_keeps.
Qed.

(** X16. Running a city again.  After a run of a city that returned, a
    second run over the disk it left sends no request and writes nothing,
    whatever the service, the model and the target of the second run: it
    returns after the six skip lines. *)
Theorem X16_second_run_of_a_city_only_skips
    (E : env) (model : string) (city : dict) (per_type : Z) (out_root : string)
    (w w' : world) :
  run_for_city E model city per_type out_root w = (Ok (), w') →
  ∀ (E' : env) (model' : string) (per_type' : Z),
    run_for_city E' model' city per_type' out_root w'
    = (Ok (),
       {| fs := fs w'; calls := calls w'; trace := trace w' ++ skip_lines |}).
Proof.
  intros Hrun E' model' per_type'.
  destruct (run_for_city_unfold E model city per_type out_root w)
    as [[e He] | (iso3 & lang2 & city_name & Hiso & Hlang & Hname & Hfirst)];
    [by rewrite He in Hrun|].
  rewrite Hfirst in Hrun.
  rewrite (run_for_city_eq E' model' city per_type' out_root iso3 lang2 city_name)
    by done.
  apply (for_each_skips E' model' city per_type' out_root iso3 lang2
           (get "id" city) city_name).
  by eapply run_pairs_files.
Qed.

Lemma X16_sample :
  run_for_city sample_env "gpt-4o" paris 2 "out" empty_world = (Ok (), sample_city_after)
  ∧ run_for_city failing_env "gpt-4o-mini" paris 100 "out" sample_city_after
    = (Ok (),
       {| fs := fs sample_city_after; calls := calls sample_city_after;
          trace := trace sample_city_after ++ skip_lines |}).
Proof.
  assert (run_for_city sample_env "gpt-4o" paris 2 "out" empty_world
          = (Ok (), sample_city_after)) as H by (vm_compute; reflexivity).
  split; [exact H|].
  exact (X16_second_run_of_a_city_only_skips sample_env "gpt-4o" paris 2 "out"
           empty_world sample_city_after H failing_env "gpt-4o-mini" 100).
Defined.

(** ** The merge pass as a deduplication *)

Lemma reader_keys fields :
  dedup_key (reader_row fields) = Ok (key_of (reader_row fields))
  ∧ merge_key (reader_row fields) = Ok (key_of (reader_row fields)).
Proof.
  unfold key_of, dedup_key, merge_key.
  destruct (lower_strip_reader "email" fields) as [e ->].
  destruct (lower_strip_reader "instagram" fields) as [i ->].
  simpl. by destruct (Str.is_empty e).
Qed.

Lemma merge_rows_unseen l seen all :
  merge_rows (reader_row <$> l) seen all
  = ((keys (unseen seen (reader_row <$> l)) ∪ seen,
      all ++ unseen seen (reader_row <$> l)), None).
Proof.
  revert seen all. induction l as [|fields l IH]; intros seen all.
  { simpl. rewrite app_nil_r. do 2 f_equal. unfold keys. set_solver. }
  rewrite fmap_cons. simpl.
  destruct (reader_keys fields) as [Hd ->].
  rewrite (dedup_key_nonempty _ _ Hd). simpl.
  destruct (decide (key_of (reader_row fields) ∈ seen)) as [Hin|Hin].
  - rewrite bool_decide_eq_false_2 by tauto. apply IH.
  - rewrite bool_decide_eq_true_2 by done. rewrite IH, <- app_assoc.
    do 2 f_equal. rewrite keys_cons. set_solver.
Qed.

(** X17. The merge pass is a deduplication by the key of [dedupe].  On the
    rows a reader yields the key of the merge loop is computed without an
    error and is the key of [dedupe]; the contacts kept are the first
    occurrences of the keys among the rows the discovered files yield, in
    the order of discovery: a sublist of those rows, with no key twice and
    no key lost. *)
Theorem X17_merge_keeps_first_occurrences (E : env) (out_root : string) :
  let rows := yielded_rows E (discovered (walk E out_root)) in
  let merged := merged_contacts E out_root in
  (∀ r, r ∈ rows → merge_key r = Ok (key_of r) ∧ dedup_key r = Ok (key_of r))
  ∧ merged = first_occurrences rows
  ∧ merged `sublist_of` rows
  ∧ NoDup (key_of <$> merged)
  ∧ keys merged = keys rows.
Proof.
  intros rows merged.
  assert (merged = first_occurrences rows) as Hm.
  { unfold merged, merged_contacts, rows, yielded_rows.
    by rewrite merge_rows_unseen. }
  split; [|split; [done|rewrite Hm; split; [|split]]].
  - intros r (fields & -> & _)%list_elem_of_fmap.
    destruct (reader_keys fields). by split.
  - apply unseen_sublist.
  - apply unseen_NoDup.
  - pose proof (unseen_keys ∅ rows) as H. by rewrite !union_empty_r_L in H.
Qed.

Lemma X17_sample :
  merged_contacts partial_read_env "out"
  = first_occurrences (yielded_rows partial_read_env
                         (discovered (walk partial_read_env "out"))).
Proof. exact (proj1 (proj2 (X17_merge_keeps_first_occurrences partial_read_env "out"))). Defined.





(** ** Batches *)

Lemma for_each_only_events {A} (P : event → Prop) (body : A → M ()) (l : list A) w :
  (∀ x w, x ∈ l → only_events P w (body x w).2) →
  only_events P w (for_each l body w).2.
Proof.
  intros Hbody.
  apply (for_each_invariant (λ w', only_events P w w')); [|apply only_events_refl].
  intros x w' Hx Hw. eapply only_events_trans; [exact Hw | by apply Hbody].
Qed.

Lemma process_city_batch E a n (l : list value) ic w :
  ic ∈ enumerate1 l →
  only_events (batch_write l (arg_out a)) w (process_city E a n ic w).2.
Proof.
  destruct ic as [i city]. intros Hin%enumerate1_elem.
  destruct city as [| | | | | |d];
    try (rewrite process_city_not_dict by done; apply only_events_refl).
  rewrite process_city_dict.
  set (w0 := (print (LogProcessingCity i n (city_label d)) w).2).
  assert (only_events (batch_write l (arg_out a)) w w0) as H0
    by (by apply only_events_emit).
  assert (only_events (batch_write l (arg_out a)) w0
            (run_for_city E (arg_model a) d (arg_per_type a) (arg_out a) w0).2) as H1.
  { eapply only_events_impl; [|apply run_for_city_writes].
    intros [| |path rows|]; simpl; try done. intros H. by exists d. }
  destruct (run_for_city _ _ _ _ _ _) as [[[]|e] w1]; simpl in *.
  - by eapply only_events_trans.
  - eapply only_events_trans; [exact H0|].
    eapply only_events_trans; [exact H1|]. by apply only_events_emit.
Qed.

Lemma run_cities_batch E a l w :
  only_events (batch_write l (arg_out a)) w (run_cities E a l w).2.
Proof.
  rewrite run_cities_unfold.
  assert (only_events (batch_write l (arg_out a)) w
            (print (LogProcessingCities (length l)) w).2) as H0
    by (by apply only_events_emit).
  destruct (new_client E) as [[]|e]; [|done].
  pose proof (for_each_only_events (batch_write l (arg_out a))
                (process_city E a (length l)) (enumerate1 l)
                (print (LogProcessingCities (length l)) w).2
                (λ x w' Hx, process_city_batch E a (length l) l x w' Hx)) as H1.
  destruct (for_each _ _ _) as [[[]|e] w1]; by eapply only_events_trans.
Qed.

Lemma main_batch E a w :
  arg_merge a = false →
  only_events (batch_write (cities_of E a) (arg_out a)) w (main E a w).2.
Proof.
  intros Hm. unfold main, cities_of. rewrite Hm.
  destruct (arg_cities a) as [[|c p]|].
  - unfold mbind, M_bind. simpl.
    eapply only_events_trans; [|apply run_cities_batch]. by apply only_events_emit.
  - unfold mbind, M_bind, lift.
    destruct (load_json E (String c p)) as [v|e]; [|apply only_events_refl].
    destruct v; try (by apply only_events_emit). apply run_cities_batch.
  - unfold mbind, M_bind. simpl.
    eapply only_events_trans; [|apply run_cities_batch]. by apply only_events_emit.
Qed.

(** X19. Every file a generation run writes, over the whole batch, is the
    file of a pair of one of the cities of the list and holds rows that
    are valid for the codes and the display name of that city and for the
    type of that pair. *)
Theorem X19_batch_writes_are_valid
    (E : env) (a : args) (w : world) (path : string) (rows : list dict) :
  arg_merge a = false →
  EvWrite path rows ∈ new_events w (main E a w).2 →
  ∃ city iso3 lang2 city_name ptype,
    VDict city ∈ cities_of E a
    ∧ city_iso3 city = Ok iso3
    ∧ city_lang2 city = Ok lang2
    ∧ city_display city = Ok city_name
    ∧ ptype ∈ PARTNER_TYPES
    ∧ pair_path (arg_out a) (get "id" city) ptype = Ok path
    ∧ Forall (valid_item iso3 lang2 city_name ptype) rows.
Proof.
  intros Hm Hin.
  pose proof (only_events_new _ _ _ (main_batch E a w Hm)) as Hall.
  rewrite Forall_forall in Hall. specialize (Hall _ Hin). simpl in Hall.
  destruct Hall as (city & Hcity & iso3 & lang2 & city_name & ptype & H).
  by exists city, iso3, lang2, city_name, ptype.
Qed.

Lemma X19_sample :
  arg_merge one_city_args = false
  ∧ EvWrite "out/paris_france/influencer/contacts.csv" sample_written
      ∈ new_events empty_world (main one_city_env one_city_args empty_world).2
  ∧ ∃ city iso3 lang2 city_name ptype,
      VDict city ∈ cities_of one_city_env one_city_args
      ∧ city_iso3 city = Ok iso3
      ∧ city_lang2 city = Ok lang2
      ∧ city_display city = Ok city_name
      ∧ ptype ∈ PARTNER_TYPES
      ∧ pair_path (arg_out one_city_args) (get "id" city) ptype
        = Ok "out/paris_france/influencer/contacts.csv"
      ∧ Forall (valid_item iso3 lang2 city_name ptype) sample_written.
Proof.
  assert (EvWrite "out/paris_france/influencer/contacts.csv" sample_written
            ∈ new_events empty_world (main one_city_env one_city_args empty_world).2)
    as H.
  { apply (list_elem_of_lookup_2 _ 5%nat). vm_compute. reflexivity. }
  split; [reflexivity|]. split; [exact H|].
  exact (X19_batch_writes_are_valid one_city_env one_city_args empty_world _ _
           eq_refl H).
Defined.
